(** * PSD Procedural Logic Engine: remapping, reconstruction and validation

    A shallow embedding of the algorithmic core of
    [components/RemapperNode.tsx] and [components/ExportPSDNode.tsx]
    together with the data model of [types.ts].

    JavaScript values are embedded as follows.
    - [number] is an exact rational extended with [Infinity], [-Infinity]
      and [NaN].  Arithmetic follows IEEE-754 on the special values
      (division by zero, [Infinity - Infinity], [0 * Infinity],
      NaN-propagation of [Math.min]/[Math.max]) and the order is that of
      the doubles.  Rounding, the overflow of a finite result to an
      infinity and the sign of zero are not modelled: a statement that
      needs finite arithmetic to be exact says so, the others rest on
      the special values and on the order only.
    - [X | undefined] is [option X]; arrays are lists; string-keyed
      records and [Map<string, _>] are [gmap string _].
    - React hooks ([useMemo], [useEdges], the store) are plain function
      arguments; [console.error] is dropped. *)

From Stdlib Require Import QArith Qminmax Lia Lqa Ascii.
From stdpp Require Import base option list strings gmap pretty.

Local Open Scope Q_scope.

(** ** JavaScript numbers *)

Module JsNumber.

Inductive number : Type :=
| Fin (q : Q)
| PInf
| NInf
| NaN.

Definition Qsgn (q : Q) : comparison := q ?= 0.

Definition add (a b : number) : number :=
  match a, b with
  | NaN, _ | _, NaN => NaN
  | Fin x, Fin y => Fin (x + y)
  | PInf, NInf | NInf, PInf => NaN
  | PInf, _ | _, PInf => PInf
  | NInf, _ | _, NInf => NInf
  end.

Definition sub (a b : number) : number :=
  match a, b with
  | NaN, _ | _, NaN => NaN
  | Fin x, Fin y => Fin (x - y)
  | PInf, PInf | NInf, NInf => NaN
  | PInf, _ | _, NInf => PInf
  | NInf, _ | _, PInf => NInf
  end.

(** An infinity of the sign of [q], [NaN] when [q] is zero. *)
Definition inf_of_sign (c : comparison) : number :=
  match c with
  | Gt => PInf
  | Lt => NInf
  | Eq => NaN
  end.

Definition mul (a b : number) : number :=
  match a, b with
  | NaN, _ | _, NaN => NaN
  | Fin x, Fin y => Fin (x * y)
  | Fin x, PInf | PInf, Fin x => inf_of_sign (Qsgn x)
  | Fin x, NInf | NInf, Fin x => inf_of_sign (CompOpp (Qsgn x))
  | PInf, PInf | NInf, NInf => PInf
  | PInf, NInf | NInf, PInf => NInf
  end.

(** [a / b].  A finite non-zero numerator over zero is an infinity
    of the numerator's sign, [0 / 0] and [Infinity / Infinity] are
    [NaN]. *)
Definition div (a b : number) : number :=
  match a, b with
  | NaN, _ | _, NaN => NaN
  | Fin x, Fin y =>
      match Qsgn y with
      | Eq => inf_of_sign (Qsgn x)
      | _ => Fin (x / y)
      end
  | Fin _, (PInf | NInf) => Fin 0
  | PInf, Fin y => match Qsgn y with Lt => NInf | _ => PInf end
  | NInf, Fin y => match Qsgn y with Lt => PInf | _ => NInf end
  | (PInf | NInf), (PInf | NInf) => NaN
  end.

(** [Math.min]: [NaN] if either argument is [NaN]. *)
Definition min (a b : number) : number :=
  match a, b with
  | NaN, _ | _, NaN => NaN
  | NInf, _ | _, NInf => NInf
  | PInf, c | c, PInf => c
  | Fin x, Fin y => if Qle_bool x y then Fin x else Fin y
  end.

(** [Math.max]: [NaN] if either argument is [NaN]. *)
Definition max (a b : number) : number :=
  match a, b with
  | NaN, _ | _, NaN => NaN
  | PInf, _ | _, PInf => PInf
  | NInf, c | c, NInf => c
  | Fin x, Fin y => if Qle_bool x y then Fin y else Fin x
  end.

(** [a <= b] as JavaScript evaluates it (false when [NaN] is involved). *)
Definition leb (a b : number) : bool :=
  match a, b with
  | NaN, _ | _, NaN => false
  | NInf, _ | _, PInf => true
  | PInf, _ | _, NInf => false
  | Fin x, Fin y => Qle_bool x y
  end.

(** Numeric equality: the same value, up to the representation of
    the fraction.  [NaN] is only used as a value here, so it is related
    to itself. *)
Definition eqb (a b : number) : bool :=
  match a, b with
  | Fin x, Fin y => Qeq_bool x y
  | PInf, PInf | NInf, NInf | NaN, NaN => true
  | _, _ => false
  end.

Definition is_finite (a : number) : bool :=
  match a with Fin _ => true | _ => false end.

Definition is_nan (a : number) : bool :=
  match a with NaN => true | _ => false end.

End JsNumber.

Import JsNumber.

Declare Scope js_scope.
Delimit Scope js_scope with js.
Bind Scope js_scope with number.
Infix "+" := add : js_scope.
Infix "-" := sub : js_scope.
Infix "*" := mul : js_scope.
Infix "/" := div : js_scope.

(** Numeric literals of the source. *)
Definition num (z : Z) : number := Fin (inject_Z z).
Definition frac (n : Z) (d : positive) : number := Fin (n # d).

Local Open Scope js_scope.

(** ** Data model ([types.ts]) *)

Definition MAX_BOUNDARY_VIOLATION_PERCENT : number := frac 3 100.

(** The [{x, y, w, h}] record used for [bounds] and [coords]. *)
Record Rect : Type := mkRect {
  rect_x : number;
  rect_y : number;
  rect_w : number;
  rect_h : number
}.

Record ContainerDefinition : Type := mkContainerDefinition {
  container_id : string;
  container_name : string;
  originalName : string;
  container_bounds : Rect;
  normalized : Rect
}.

Record TemplateMetadata : Type := mkTemplateMetadata {
  canvas_width : number;
  canvas_height : number;
  containers : list ContainerDefinition
}.

(** [type: 'layer' | 'group'] *)
Inductive LayerType : Type := layer | group.

Global Instance LayerType_eq_dec : EqDecision LayerType.
Proof. solve_decision. Defined.

(* The nested trees get hand-written induction principles below. *)
Local Unset Elimination Schemes.

Inductive SerializableLayer : Type := mkLayer {
  layer_id : string;
  layer_name : string;
  layer_type : LayerType;
  layer_children : option (list SerializableLayer);
  isVisible : bool;
  opacity : number;
  coords : Rect
}.

Record LayerOverride : Type := mkLayerOverride {
  layerId : string;
  xOffset : number;
  yOffset : number;
  individualScale : number
}.

(** [anchor] is kept as the string that arrives at run time, so that
    values outside ['TOP' | 'CENTER' | 'BOTTOM' | 'STRETCH'] can be
    discussed; [safetyReport] plays no role in the engine. *)
Record LayoutStrategy : Type := mkLayoutStrategy {
  suggestedScale : number;
  anchor : string;
  generativePrompt : string;
  reasoning : string;
  overrides : option (list LayerOverride)
}.

Record Transform : Type := mkTransform {
  scaleX : number;
  scaleY : number;
  offsetX : number;
  offsetY : number
}.

Inductive TransformedLayer : Type := mkTransformedLayer {
  tl_id : string;
  tl_name : string;
  tl_type : LayerType;
  tl_children : option (list TransformedLayer);
  tl_isVisible : bool;
  tl_opacity : number;
  tl_coords : Rect;
  transform : Transform
}.

Local Set Elimination Schemes.

Inductive PayloadStatus : Type := success | error | idle.

Record Metrics : Type := mkMetrics {
  metrics_source : number * number;
  metrics_target : number * number
}.

Record TransformedPayload : Type := mkTransformedPayload {
  status : PayloadStatus;
  sourceNodeId : string;
  sourceContainer : string;
  targetContainer : string;
  layers : list TransformedLayer;
  scaleFactor : number;
  metrics : Metrics
}.

(** Structural induction through the [children] arrays. *)
Section LayerInduction.
Variable P : SerializableLayer → Prop.
Hypothesis step : ∀ l,
  (∀ cs, layer_children l = Some cs → Forall P cs) → P l.

Fixpoint SerializableLayer_tree_ind (l : SerializableLayer) : P l :=
  step l
    (match l as l0
           return ∀ cs, layer_children l0 = Some cs → Forall P cs with
     | mkLayer _ _ _ ch _ _ _ =>
         match ch as ch0
               return ∀ cs, ch0 = Some cs → Forall P cs with
         | None => λ cs (E : None = Some cs),
             match E in _ = o
                   return match o with Some _ => Forall P cs | None => True end
             with eq_refl => I end
         | Some cs0 => λ cs (E : Some cs0 = Some cs),
             match E in _ = o
                   return match o with Some c => Forall P c | None => True end
             with
             | eq_refl =>
                 (fix go (ls : list SerializableLayer) : Forall P ls :=
                    match ls with
                    | [] => @List.Forall_nil _ P
                    | c :: ls' =>
                        @List.Forall_cons _ P c ls' (SerializableLayer_tree_ind c) (go ls')
                    end) cs0
             end
         end
     end).
End LayerInduction.

(** ** Transform resolver ([RemapperNode.tsx], "3. Compute Payload") *)

Record Resolved : Type := mkResolved {
  scale : number;
  anchorX : number;
  anchorY : number
}.

(** The block from [// MATH: Default Geometric Logic] to the end of the
    [if (strategy) ... else ...]. *)
Definition resolve (sourceRect targetRect : Rect)
    (strategy : option LayoutStrategy) : Resolved :=
  let ratioX := rect_w targetRect / rect_w sourceRect in
  let ratioY := rect_h targetRect / rect_h sourceRect in
  let scale0 := min ratioX ratioY in
  match strategy with
  | Some s =>
      let scale := suggestedScale s in
      let scaledW := rect_w sourceRect * scale in
      let scaledH := rect_h sourceRect * scale in
      let anchorX := rect_x targetRect + (rect_w targetRect - scaledW) / num 2 in
      let anchorY :=
        if bool_decide (anchor s = "TOP") then rect_y targetRect
        else if bool_decide (anchor s = "BOTTOM")
             then rect_y targetRect + (rect_h targetRect - scaledH)
             else rect_y targetRect + (rect_h targetRect - scaledH) / num 2 in
      mkResolved scale anchorX anchorY
  | None =>
      let scaledW := rect_w sourceRect * scale0 in
      let scaledH := rect_h sourceRect * scale0 in
      mkResolved scale0
        (rect_x targetRect + (rect_w targetRect - scaledW) / num 2)
        (rect_y targetRect + (rect_h targetRect - scaledH) / num 2)
  end.

(** ** Recursive transformation engine ([transformLayers]) *)

(** [strategy?.overrides?.find(o => o.layerId === layer.id)] *)
Definition find_override (strategy : option LayoutStrategy) (id : string)
    : option LayerOverride :=
  match strategy with
  | Some s =>
      match overrides s with
      | Some os => List.find (λ o, bool_decide (layerId o = id)) os
      | None => None
      end
  | None => None
  end.

(** The values computed for one layer by the body of the [map] callback. *)
Record Placement : Type := mkPlacement {
  geomX : number;
  geomY : number;
  unclampedY : number;
  finalX : number;
  finalY : number;
  currentDeltaX : number;
  currentDeltaY : number;
  layerScaleX : number;
  layerScaleY : number
}.

Section Transformer.
(** The variables [transformLayers] closes over. *)
Variables (sourceRect targetRect : Rect).
Variables (scale anchorX anchorY : number).
Variable strategy : option LayoutStrategy.

Definition minY : number :=
  rect_y targetRect - rect_h targetRect * MAX_BOUNDARY_VIOLATION_PERCENT.
Definition maxY : number :=
  rect_y targetRect + rect_h targetRect
  + rect_h targetRect * MAX_BOUNDARY_VIOLATION_PERCENT.

(** [Math.max(minY, Math.min(finalY, maxY))] *)
Definition clampY (y : number) : number := max minY (min y maxY).

(** Steps 1 to 4 of the callback, for the layer [l] and the deltas
    received from its parent. *)
Definition place (l : SerializableLayer)
    (parentDeltaX parentDeltaY : number) : Placement :=
  let relX := (rect_x (coords l) - rect_x sourceRect) / rect_w sourceRect in
  let relY := (rect_y (coords l) - rect_y sourceRect) / rect_h sourceRect in
  let geomX := anchorX + relX * (rect_w sourceRect * scale) in
  let geomY := anchorY + relY * (rect_h sourceRect * scale) in
  match find_override strategy (layer_id l) with
  | Some override =>
      let aiX := rect_x targetRect + xOffset override in
      let aiY := rect_y targetRect + yOffset override in
      {| geomX := geomX; geomY := geomY;
         finalX := aiX;
         unclampedY := aiY;
         finalY := clampY aiY;
         currentDeltaX := aiX - geomX;
         currentDeltaY := aiY - geomY;
         layerScaleX := scale * individualScale override;
         layerScaleY := scale * individualScale override |}
  | None =>
      let finalX := geomX + parentDeltaX in
      let finalY := geomY + parentDeltaY in
      {| geomX := geomX; geomY := geomY;
         finalX := finalX;
         unclampedY := finalY;
         finalY := clampY finalY;
         currentDeltaX := parentDeltaX;
         currentDeltaY := parentDeltaY;
         layerScaleX := scale;
         layerScaleY := scale |}
  end.

(** One iteration of [layers.map(layer => ...)]: the returned object
    spreads [layer] and replaces [coords], [transform] and [children]. *)
Fixpoint transformLayer (l : SerializableLayer)
    (parentDeltaX parentDeltaY : number) : TransformedLayer :=
  let p := place l parentDeltaX parentDeltaY in
  let newW := rect_w (coords l) * layerScaleX p in
  let newH := rect_h (coords l) * layerScaleY p in
  {| tl_id := layer_id l;
     tl_name := layer_name l;
     tl_type := layer_type l;
     tl_isVisible := isVisible l;
     tl_opacity := opacity l;
     tl_coords := mkRect (finalX p) (finalY p) newW newH;
     transform := mkTransform (layerScaleX p) (layerScaleY p)
                              (finalX p) (finalY p);
     tl_children :=
       match layer_children l with
       | Some cs =>
           Some (List.map
                   (λ c, transformLayer c (currentDeltaX p) (currentDeltaY p))
                   cs)
       | None => None
       end |}.

Definition transformLayers (ls : list SerializableLayer)
    (parentDeltaX parentDeltaY : number) : list TransformedLayer :=
  List.map (λ l, transformLayer l parentDeltaX parentDeltaY) ls.

End Transformer.

(** The source and target halves of [InstanceData], once [ready]. *)
Record SourceData : Type := mkSourceData {
  source_name : string;
  source_nodeId : string;
  source_handleId : string;
  source_layers : list SerializableLayer;
  originalBounds : Rect;
  aiStrategy : option LayoutStrategy
}.

Record TargetData : Type := mkTargetData {
  target_name : string;
  target_bounds : Rect
}.

(** [if (sourceData.ready && targetData.ready) { ... payload = {...} }];
    [None] on either side stands for [{ ready: false }], and the result
    [None] for [payload = null]. *)
Definition computePayload (sourceData : option SourceData)
    (targetData : option TargetData) : option TransformedPayload :=
  match sourceData, targetData with
  | Some src, Some tgt =>
      let sourceRect := originalBounds src in
      let targetRect := target_bounds tgt in
      let strategy := aiStrategy src in
      let r := resolve sourceRect targetRect strategy in
      let transformedLayers :=
        transformLayers sourceRect targetRect (scale r) (anchorX r) (anchorY r)
          strategy (source_layers src) (num 0) (num 0) in
      Some {| status := success;
              sourceNodeId := source_nodeId src;
              sourceContainer := source_name src;
              targetContainer := target_name tgt;
              layers := transformedLayers;
              scaleFactor := scale r;
              metrics := mkMetrics (rect_w sourceRect, rect_h sourceRect)
                                   (rect_w targetRect, rect_h targetRect) |}
  | _, _ => None
  end.

(** ** Export node ([ExportPSDNode.tsx]) *)

(** The fields of a reactflow [Edge] the component reads. *)
Record Edge : Type := mkEdge {
  edge_source : string;
  edge_sourceHandle : option string;
  edge_target : string;
  edge_targetHandle : option string
}.

(** [s.startsWith(p)] *)
Fixpoint startsWith (p s : string) : bool :=
  match p, s with
  | EmptyString, _ => true
  | String a p', String b s' => bool_decide (a = b) && startsWith p' s'
  | String _ _, EmptyString => false
  end.

Fixpoint drop_chars (n : nat) (s : string) : string :=
  match n, s with
  | O, _ => s
  | S n', String _ s' => drop_chars n' s'
  | S _, EmptyString => EmptyString
  end.

(** [s.replace(pat, '')] with a string pattern: the first occurrence of
    [pat] is removed. *)
Fixpoint remove_first (pat s : string) : string :=
  if startsWith pat s then drop_chars (String.length pat) s
  else match s with
       | EmptyString => EmptyString
       | String c s' => String c (remove_first pat s')
       end.

(** 1. Resolve connected target template. *)
Definition templateMetadata (edges : list Edge) (id : string)
    (templateRegistry : gmap string TemplateMetadata) : option TemplateMetadata :=
  match List.find (λ e, bool_decide (edge_target e = id)
                        && bool_decide (edge_targetHandle e = Some "template-input"))
                  edges with
  | None => None
  | Some edge => templateRegistry !! edge_source edge
  end.

(** [templateMetadata?.containers || []] *)
Definition containers_of (t : option TemplateMetadata) : list ContainerDefinition :=
  match t with Some t => containers t | None => [] end.

Definition violation_message (semanticTarget slotName : string) : string :=
  "PROCEDURAL VIOLATION: Payload targeting '" +:+ semanticTarget
  +:+ "' is miswired to slot '" +:+ slotName +:+ "'.".

Record Validation : Type := mkValidation {
  slotConnections : gmap string TransformedPayload;
  validationErrors : list string
}.

(** The payload an edge carries:
    [payloadRegistry[edge.source]?.[edge.sourceHandle || '']]. *)
Definition edge_payload
    (payloadRegistry : gmap string (gmap string TransformedPayload))
    (edge : Edge) : option TransformedPayload :=
  match payloadRegistry !! edge_source edge with
  | Some sourceNodePayloads =>
      sourceNodePayloads !! default "" (edge_sourceHandle edge)
  | None => None
  end.

(** The slot an edge is plugged into, when it ends in one of this
    node's [input-*] handles. *)
Definition edge_slot (id : string) (edge : Edge) : option string :=
  if bool_decide (edge_target edge = id) then
    match edge_targetHandle edge with
    | Some h => if startsWith "input-" h then Some (remove_first "input-" h)
                else None
    | None => None
    end
  else None.

(** Body of [edges.forEach(edge => ...)]. *)
Definition visit_edge (id : string)
    (payloadRegistry : gmap string (gmap string TransformedPayload))
    (acc : Validation) (edge : Edge) : Validation :=
  match edge_slot id edge with
  | None => acc
  | Some slotName =>
      match edge_payload payloadRegistry edge with
      | Some payload =>
          let semanticTarget := targetContainer payload in
          if bool_decide (semanticTarget = slotName)
          then mkValidation (<[slotName := payload]> (slotConnections acc))
                            (validationErrors acc)
          else mkValidation (slotConnections acc)
                 (validationErrors acc ++ [violation_message semanticTarget slotName])
      | None => acc
      end
  end.

(** 2. Map connections to payloads with strict validation. *)
Definition validate (edges : list Edge) (id : string)
    (payloadRegistry : gmap string (gmap string TransformedPayload)) : Validation :=
  foldl (visit_edge id payloadRegistry) (mkValidation ∅ []) edges.

(** 3. Status calculation. *)
Record Assembly : Type := mkAssembly {
  totalSlots : nat;
  filledSlots : nat;
  isTemplateReady : bool;
  violations : list string;
  isFullyAssembled : bool
}.

Definition assembly_status (edges : list Edge) (id : string)
    (templateRegistry : gmap string TemplateMetadata)
    (payloadRegistry : gmap string (gmap string TransformedPayload)) : Assembly :=
  let t := templateMetadata edges id templateRegistry in
  let v := validate edges id payloadRegistry in
  let totalSlots := length (containers_of t) in
  let filledSlots := size (slotConnections v) in
  let isTemplateReady := bool_decide (is_Some t) in
  {| totalSlots := totalSlots;
     filledSlots := filledSlots;
     isTemplateReady := isTemplateReady;
     violations := validationErrors v;
     isFullyAssembled :=
       isTemplateReady && Nat.eqb filledSlots totalSlots
       && Nat.ltb 0 totalSlots && Nat.eqb (length (validationErrors v)) 0 |}.

(** *** Output document (ag-psd's [Layer] and [Psd]) *)

Local Unset Elimination Schemes.

(** The properties of an ag-psd [Layer] the export touches; [preserved]
    stands for every other property (blend mode, text, pixel data, ...),
    which the spread [...originalLayer] copies unchanged. *)
Inductive Layer : Type := mkPsdLayer {
  psd_name : option string;
  top : option number;
  left : option number;
  bottom : option number;
  right : option number;
  hidden : option bool;
  psd_opacity : option number;
  opened : option bool;
  psd_children : option (list Layer);
  preserved : list (string * string)
}.

Local Set Elimination Schemes.

Record Psd : Type := mkPsd {
  psd_width : number;
  psd_height : number;
  psd_layers : list Layer
}.

(** How the promise returned by [writePsdFile] settles: it is
    fulfilled, or it is rejected with a value whose [message] property
    is [message] ([None] when it has none). *)
Inductive Settled : Type :=
| Fulfilled
| Rejected (message : option string).

(** How [handleExport] ends: it did nothing (the early [return]),
    [writePsdFile] wrote the document, or an exception was caught into
    [exportError]. *)
Inductive ExportOutcome : Type :=
| NotStarted
| Written (newPsd : Psd)
| ExportError (message : string).

(** [n || fallback] on strings: the empty string is falsy. *)
Definition or_string (s fallback : string) : string :=
  if bool_decide (s = "") then fallback else s.

(** The [catch] block: [setExportError(e.message || "Unknown export error")]. *)
Definition caught_message (message : option string) : string :=
  or_string (default "" message) "Unknown export error".

Section ExportNode.
(** [findLayerByPath] and [writePsdFile] of [services/psdService],
    imports of the component.  The lookup is taken to return a layer or
    [undefined]; the file name
    [`PROCEDURAL_EXPORT_${Date.now()}.psd`] handed to the writer plays
    no role. *)
Variable findLayerByPath : Psd → string → option Layer.
Variable writePsdFile : Psd → Settled.

(** One iteration of the [for (const metaLayer of transformedLayers)]
    loop: [None] when nothing is pushed onto [resultLayers]. *)
Fixpoint reconstructLayer (sourcePsd : Psd) (metaLayer : TransformedLayer)
    : option Layer :=
  match findLayerByPath sourcePsd (tl_id metaLayer) with
  | Some originalLayer =>
      let c := tl_coords metaLayer in
      let recurse :=
        match tl_type metaLayer, tl_children metaLayer with
        | group, Some cs =>
            Some ((fix go (ls : list TransformedLayer) : list Layer :=
                     match ls with
                     | [] => []
                     | m :: ls' =>
                         match reconstructLayer sourcePsd m with
                         | Some newLayer => newLayer :: go ls'
                         | None => go ls'
                         end
                     end) cs)
        | _, _ => None
        end in
      Some {| psd_name := psd_name originalLayer;
              top := Some (rect_y c);
              left := Some (rect_x c);
              bottom := Some (rect_y c + rect_h c);
              right := Some (rect_x c + rect_w c);
              hidden := Some (negb (tl_isVisible metaLayer));
              psd_opacity := Some (tl_opacity metaLayer * num 255);
              opened := match recurse with
                        | Some _ => Some true
                        | None => opened originalLayer
                        end;
              psd_children := recurse;
              preserved := preserved originalLayer |}
  | None => None
  end.

Definition reconstructHierarchy (transformedLayers : list TransformedLayer)
    (sourcePsd : Psd) : list Layer :=
  omap (reconstructLayer sourcePsd) transformedLayers.

Definition missing_psd_message (sourceNodeId : string) : string :=
  "Binary PSD data missing for source node: " +:+ sourceNodeId
  +:+ ". Please reload the source file.".

(** C. Process each payload and construct the final hierarchy; the
    [throw] leaves the loop with [inr message]. *)
Fixpoint finalChildren (psdRegistry : gmap string Psd)
    (slotConnections : gmap string TransformedPayload)
    (containers : list ContainerDefinition) : list Layer + string :=
  match containers with
  | [] => inl []
  | container :: rest =>
      match slotConnections !! container_name container with
      | Some payload =>
          match psdRegistry !! sourceNodeId payload with
          | None => inr (missing_psd_message (sourceNodeId payload))
          | Some sourcePsd =>
              let reconstructedContent :=
                reconstructHierarchy (layers payload) sourcePsd in
              let b := container_bounds container in
              let containerGroup :=
                {| psd_name := Some (originalName container);
                   psd_children := Some reconstructedContent;
                   opened := Some true;
                   top := Some (rect_y b);
                   left := Some (rect_x b);
                   bottom := Some (rect_y b + rect_h b);
                   right := Some (rect_x b + rect_w b);
                   hidden := None;
                   psd_opacity := None;
                   preserved := [] |} in
              match finalChildren psdRegistry slotConnections rest with
              | inl groups => inl (containerGroup :: groups)
              | inr e => inr e
              end
          end
      | None => finalChildren psdRegistry slotConnections rest
      end
  end.

(** D. [await writePsdFile(newPsd, ...)], still inside the [try]. *)
Definition writeOutcome (newPsd : Psd) : ExportOutcome :=
  match writePsdFile newPsd with
  | Fulfilled => Written newPsd
  | Rejected message => ExportError (caught_message message)
  end.

(** 4. Export logic. *)
Definition handleExport (edges : list Edge) (id : string)
    (templateRegistry : gmap string TemplateMetadata)
    (payloadRegistry : gmap string (gmap string TransformedPayload))
    (psdRegistry : gmap string Psd) : ExportOutcome :=
  let a := assembly_status edges id templateRegistry payloadRegistry in
  match templateMetadata edges id templateRegistry with
  | Some t =>
      if isFullyAssembled a then
        match finalChildren psdRegistry
                (slotConnections (validate edges id payloadRegistry))
                (containers t) with
        | inl children =>
            writeOutcome (mkPsd (canvas_width t) (canvas_height t) children)
        | inr message => ExportError (caught_message (Some message))
        end
      else NotStarted
  | None => NotStarted
  end.

End ExportNode.

(** * Vocabulary of the properties *)

(** Two numbers denote the same value. *)
Global Instance number_equiv : Equiv number := λ a b, eqb a b = true.

Global Instance number_equiv_dec (a b : number) : Decision (a ≡ b).
Proof. unfold equiv, number_equiv. apply _. Defined.

(** [a] lies in the closed interval [[lo, hi]], as JavaScript would test
    it with [lo <= a && a <= hi]. *)
Definition within (lo hi a : number) : bool := leb lo a && leb a hi.

Definition rectQ (x y w h : Q) : Rect := mkRect (Fin x) (Fin y) (Fin w) (Fin h).

Global Instance Rect_equiv : Equiv Rect := λ a b,
  rect_x a ≡ rect_x b ∧ rect_y a ≡ rect_y b
  ∧ rect_w a ≡ rect_w b ∧ rect_h a ≡ rect_h b.

(** *** Trees *)

Local Unset Elimination Schemes.

(** What the shape of a tree consists of: identifier, kind and the
    ordered children of every element. *)
Inductive Shape : Type :=
| ShapeNode (id : string) (kind : LayerType) (children : option (list Shape)).

Local Set Elimination Schemes.

Fixpoint shape_of (l : SerializableLayer) : Shape :=
  ShapeNode (layer_id l) (layer_type l)
    match layer_children l with
    | Some cs => Some (List.map shape_of cs)
    | None => None
    end.

Fixpoint tshape_of (t : TransformedLayer) : Shape :=
  ShapeNode (tl_id t) (tl_type t)
    match tl_children t with
    | Some cs => Some (List.map tshape_of cs)
    | None => None
    end.

(** All elements of a tree, parents before children. *)
Fixpoint nodes (l : SerializableLayer) : list SerializableLayer :=
  l :: match layer_children l with
       | Some cs => List.flat_map nodes cs
       | None => []
       end.

Fixpoint tnodes (t : TransformedLayer) : list TransformedLayer :=
  t :: match tl_children t with
       | Some cs => List.flat_map tnodes cs
       | None => []
       end.

(** The [i]-th child, and the element reached by a path of child
    indices. *)
Definition child (i : nat) (l : SerializableLayer) : option SerializableLayer :=
  match layer_children l with
  | Some cs => cs !! i
  | None => None
  end.

Definition tchild (i : nat) (t : TransformedLayer) : option TransformedLayer :=
  match tl_children t with
  | Some cs => cs !! i
  | None => None
  end.

Fixpoint descend (p : list nat) (l : SerializableLayer) : option SerializableLayer :=
  match p with
  | [] => Some l
  | i :: p' =>
      match child i l with
      | Some c => descend p' c
      | None => None
      end
  end.

Fixpoint tdescend (p : list nat) (t : TransformedLayer) : option TransformedLayer :=
  match p with
  | [] => Some t
  | i :: p' =>
      match tchild i t with
      | Some c => tdescend p' c
      | None => None
      end
  end.

(** No element strictly below [l] on the path [p] has an override. *)
Fixpoint plain_path (strategy : option LayoutStrategy) (p : list nat)
    (l : SerializableLayer) : Prop :=
  match p with
  | [] => True
  | i :: p' =>
      match child i l with
      | Some c =>
          find_override strategy (layer_id c) = None
          ∧ plain_path strategy p' c
      | None => False
      end
  end.

(** The transform record repeats the final top-left corner. *)
Definition offsets_are_position (t : TransformedLayer) : Prop :=
  offsetX (transform t) = rect_x (tl_coords t)
  ∧ offsetY (transform t) = rect_y (tl_coords t).

(** *** Overrides *)

(** [s] with another override list. *)
Definition with_overrides (s : LayoutStrategy) (os : list LayerOverride)
    : LayoutStrategy :=
  mkLayoutStrategy (suggestedScale s) (anchor s) (generativePrompt s)
    (reasoning s) (Some os).

(** The overrides of [os] for other identifiers than that of [o]. *)
Definition others_than (o : LayerOverride) (os : list LayerOverride)
    : list LayerOverride :=
  List.filter (λ x, negb (bool_decide (layerId x = layerId o))) os.

(** *** The bleed zone *)



(** The output element has no override of its own. *)
Definition not_overridden (strategy : option LayoutStrategy)
    (t : TransformedLayer) : Prop :=
  find_override strategy (tl_id t) = None.

(** [s] without its override list. *)
Definition without_overrides (s : LayoutStrategy) : LayoutStrategy :=
  mkLayoutStrategy (suggestedScale s) (anchor s) (generativePrompt s)
    (reasoning s) None.

(** [src] with another strategy. *)
Definition with_strategy (src : SourceData) (strategy : option LayoutStrategy)
    : SourceData :=
  mkSourceData (source_name src) (source_nodeId src) (source_handleId src)
    (source_layers src) (originalBounds src) strategy.

(** *** Wirings of the export node *)

(** A wiring is a slot name together with the payload plugged into it. *)
Definition wiring (id : string)
    (payloadRegistry : gmap string (gmap string TransformedPayload))
    (edge : Edge) : option (string * TransformedPayload) :=
  match edge_slot id edge, edge_payload payloadRegistry edge with
  | Some slotName, Some payload => Some (slotName, payload)
  | _, _ => None
  end.

Definition wirings (edges : list Edge) (id : string)
    (payloadRegistry : gmap string (gmap string TransformedPayload))
    : list (string * TransformedPayload) :=
  omap (wiring id payloadRegistry) edges.

(** The payload declares the slot it occupies. *)
Definition matched (w : string * TransformedPayload) : Prop :=
  targetContainer w.2 = w.1.

Global Instance matched_dec (w : string * TransformedPayload) : Decision (matched w).
Proof. unfold matched. apply _. Defined.

(** What the validator does with one wiring. *)
Definition record_wiring (acc : Validation) (w : string * TransformedPayload)
    : Validation :=
  if decide (matched w)
  then mkValidation (<[w.1 := w.2]> (slotConnections acc)) (validationErrors acc)
  else mkValidation (slotConnections acc)
         (validationErrors acc ++ [violation_message (targetContainer w.2) w.1]).

(** * Scenarios *)

(** *** A parent pushed out of the bleed zone *)

(** The end-to-end rectangles with a strategy that keeps the fitted
    scale 0.25 and top anchoring. *)
Definition demo_source : Rect := rectQ 0 0 100 200.
Definition demo_target : Rect := rectQ 10 10 50 50.

Definition demo_strategy (os : list LayerOverride) : LayoutStrategy :=
  mkLayoutStrategy (frac 1 4) "TOP" "" "" (Some os).

(** A group at the top of the source with one child 40 units above it
    and one child flush with it. *)
Definition lifted_child : SerializableLayer :=
  mkLayer "child" "Child" layer None true (num 1) (rectQ 0 (-40) 10 10).
Definition flush_child : SerializableLayer :=
  mkLayer "flush" "Flush" layer None true (num 1) (rectQ 0 0 10 10).
Definition lowered_parent : SerializableLayer :=
  mkLayer "parent" "Parent" group (Some [lifted_child; flush_child]) true
    (num 1) (rectQ 0 0 100 200).

(** The override asks for y = 10 + 60 = 70, below the bottom 61.5 of
    the bleed zone. *)
Definition lowering_strategy : option LayoutStrategy :=
  Some (demo_strategy [mkLayerOverride "parent" (num 0) (num 60) (num 1)]).

Definition demo_transform (strategy : option LayoutStrategy)
    (l : SerializableLayer) : TransformedLayer :=
  let r := resolve demo_source demo_target strategy in
  transformLayer demo_source demo_target (scale r) (anchorX r) (anchorY r)
    strategy l (num 0) (num 0).

(** *** The end-to-end scenario with an override on the root *)

Definition root_override : LayerOverride :=
  mkLayerOverride "root" (num 5) (num 5) (num 2).

Definition root_override_strategy (anchor : string) : option LayoutStrategy :=
  Some (mkLayoutStrategy (frac 1 4) anchor "" "" (Some [root_override])).

(** *** Duplicate overrides *)

Definition late_override : LayerOverride :=
  mkLayerOverride "root" (num 100) (num 100) (num 3).

Definition root_leaf : SerializableLayer :=
  mkLayer "root" "Root" layer None true (num 1) demo_source.

(** A group holding an element ["root"] next to a plain one, and a
    strategy with two overrides for ["root"]. *)
Definition plain_leaf : SerializableLayer :=
  mkLayer "plain" "Plain" layer None true (num 1) (rectQ 20 30 10 10).

Definition frame : SerializableLayer :=
  mkLayer "frame" "Frame" group (Some [plain_leaf; root_leaf]) true (num 1)
    demo_source.

Definition duplicate_strategy : LayoutStrategy :=
  mkLayoutStrategy (frac 1 4) "TOP" "" "" (Some [root_override; late_override]).

(** *** A source container without extent *)

Definition dot : SerializableLayer :=
  mkLayer "0" "Dot" layer None true (num 1) (rectQ 0 0 10 10).

Definition empty_source : SourceData :=
  mkSourceData "EMPTY" "load-1" "source-out-0" [dot] (rectQ 0 0 0 0) None.

Definition demo_slot : TargetData := mkTargetData "BG" demo_target.

(** *** A source without height *)


(** *** Three slots, one of them miswired *)

Definition slot (name : string) : ContainerDefinition :=
  mkContainerDefinition name name name demo_target demo_target.

Definition three_slots : TemplateMetadata :=
  mkTemplateMetadata (num 1024) (num 768)
    [slot "BG"; slot "SYMBOLS"; slot "LOGO"].

Definition payload_for (targetContainer : string) : TransformedPayload :=
  mkTransformedPayload success "load-1" "SOURCE" targetContainer []
    (num 1) (mkMetrics (num 100, num 200) (num 50, num 50)).

Definition demo_edges : list Edge :=
  [ mkEdge "template-1" (Some "template-out") "export-1" (Some "template-input");
    mkEdge "remap-1" (Some "result-out-0") "export-1" (Some "input-BG");
    mkEdge "remap-1" (Some "result-out-1") "export-1" (Some "input-SYMBOLS");
    mkEdge "remap-1" (Some "result-out-2") "export-1" (Some "input-LOGO") ].

Definition demo_templates : gmap string TemplateMetadata :=
  {[ "template-1" := three_slots ]}.

(** The third remap instance targets [BG] but is plugged into [LOGO]. *)
Definition demo_payloads : gmap string (gmap string TransformedPayload) :=
  {[ "remap-1" :=
       <[ "result-out-0" := payload_for "BG" ]>
       (<[ "result-out-1" := payload_for "SYMBOLS" ]>
       {[ "result-out-2" := payload_for "BG" ]}) ]}.

(** *** A payload wired into a handle that is no slot of the template *)

Definition two_slots : TemplateMetadata :=
  mkTemplateMetadata (num 1024) (num 768) [slot "LOGO"; slot "BG"].

(** The handle [input-XYZ] is left over from a template that had a
    container [XYZ]; the payload plugged into it still targets [XYZ]. *)
Definition stale_edges : list Edge :=
  [ mkEdge "template-1" (Some "template-out") "export-1" (Some "template-input");
    mkEdge "remap-1" (Some "result-out-0") "export-1" (Some "input-XYZ");
    mkEdge "remap-1" (Some "result-out-1") "export-1" (Some "input-BG") ].

Definition stale_templates : gmap string TemplateMetadata :=
  {[ "template-1" := two_slots ]}.

Definition stale_payloads : gmap string (gmap string TransformedPayload) :=
  {[ "remap-1" :=
       <[ "result-out-0" := payload_for "XYZ" ]>
       {[ "result-out-1" := payload_for "BG" ]} ]}.

(** *** An original document that lacks one identifier *)

Definition original_dot : Layer :=
  mkPsdLayer (Some "Dot") (Some (num 0)) (Some (num 0)) (Some (num 10))
    (Some (num 10)) (Some false) (Some (num 255)) None None
    [("blendMode", "normal")].

Definition demo_psd : Psd := mkPsd (num 100) (num 200) [original_dot].

(** A lookup that knows the identifier ["0"] only. *)
Definition demo_finder (sourcePsd : Psd) (id : string) : option Layer :=
  if bool_decide (id = "0") then Some original_dot else None.

Definition placed (id : string) : TransformedLayer :=
  mkTransformedLayer id "Dot" layer None true (num 1) (rectQ 10 10 5 5)
    (mkTransform (frac 1 2) (frac 1 2) (num 10) (num 10)).

Definition one_slot : TemplateMetadata :=
  mkTemplateMetadata (num 1024) (num 768) [slot "BG"].

Definition bg_edges : list Edge :=
  [ mkEdge "template-1" (Some "template-out") "export-1" (Some "template-input");
    mkEdge "remap-1" (Some "result-out-0") "export-1" (Some "input-BG") ].

Definition bg_templates : gmap string TemplateMetadata :=
  {[ "template-1" := one_slot ]}.

(** The payload carries a layer ["0"] and a layer ["7"]. *)
Definition bg_payloads : gmap string (gmap string TransformedPayload) :=
  {[ "remap-1" :=
       {[ "result-out-0" :=
            mkTransformedPayload success "load-1" "SOURCE" "BG"
              [placed "0"; placed "7"] (num 1)
              (mkMetrics (num 100, num 200) (num 50, num 50)) ]} ]}.

Definition bg_psds : gmap string Psd := {[ "load-1" := demo_psd ]}.

(** A writer that succeeds, and one that fails for want of space. *)
Definition working_writer (newPsd : Psd) : Settled := Fulfilled.
Definition failing_writer (newPsd : Psd) : Settled :=
  Rejected (Some "QuotaExceededError").

(** * The rest of the remapper node ([RemapperNode.tsx]) *)

(** ** Wiring of one instance *)

(** A handle that is neither [null] nor empty. *)
Definition truthy_handle (h : option string) : option string :=
  match h with
  | Some s => if bool_decide (s = "") then None else Some s
  | None => None
  end.

Record ContainerContext : Type := mkContainerContext {
  containerName : string;
  context_bounds : Rect;
  canvasDimensions : number * number
}.

Inductive MappingStatus : Type := resolved | empty | transformed.

(** [layers] is read through the cast [as SerializableLayer[]]. *)
Record MappingContext : Type := mkMappingContext {
  context_container : ContainerContext;
  context_layers : list SerializableLayer;
  context_status : MappingStatus;
  context_message : option string;
  context_aiStrategy : option LayoutStrategy
}.

(** The fields of a reactflow [Node] the component reads, with the
    [instanceCount] of its [data]. *)
Record Node : Type := mkNode {
  node_id : string;
  node_type : option string;
  node_instanceCount : option nat
}.

(** [sourceData] once ready: the fields the payload uses, and the
    [sourceNodeId] kept beside them. *)
Record SourceResolution : Type := mkSourceResolution {
  resolved_source : SourceData;
  edge_sourceNodeId : string
}.

(** [edges.find(e => e.target === id && e.targetHandle === handleId)] *)
Definition find_edge (edges : list Edge) (id handleId : string) : option Edge :=
  List.find (λ e, bool_decide (edge_target e = id)
                  && bool_decide (edge_targetHandle e = Some handleId))
            edges.

(** [nodes.find(n => n.type === 'loadPsd')] *)
Definition loadPsdNode (nodes : list Node) : option Node :=
  List.find (λ n, bool_decide (node_type n = Some "loadPsd")) nodes.

(** 1. Resolve source, for the instance [i]. *)
Definition resolveSource (edges : list Edge) (nodes : list Node) (id : string)
    (resolvedRegistry : gmap string (gmap string MappingContext)) (i : nat)
    : option SourceResolution :=
  let sourceHandleId := "source-in-" +:+ pretty i in
  match find_edge edges id sourceHandleId with
  | Some sourceEdge =>
      match truthy_handle (edge_sourceHandle sourceEdge) with
      | Some sourceHandle =>
          match resolvedRegistry !! edge_source sourceEdge with
          | Some resolvedData =>
              match resolvedData !! sourceHandle with
              | Some context =>
                  let binarySourceId :=
                    match loadPsdNode nodes with
                    | Some n => node_id n
                    | None => edge_source sourceEdge
                    end in
                  Some {| resolved_source :=
                            {| source_name :=
                                 containerName (context_container context);
                               source_nodeId := binarySourceId;
                               source_handleId := sourceHandle;
                               source_layers := context_layers context;
                               originalBounds :=
                                 context_bounds (context_container context);
                               aiStrategy := context_aiStrategy context |};
                          edge_sourceNodeId := edge_source sourceEdge |}
              | None => None
              end
          | None => None
          end
      | None => None
      end
  | None => None
  end.

(** The decimal digits of [/^target-out-(\d+)$/] and [parseInt(_, 10)]:
    the characters with codes 48 to 57. *)
Definition digit_of (a : ascii) : option nat :=
  let code := nat_of_ascii a in
  if (48 <=? code)%nat && (code <=? 57)%nat then Some (code - 48)%nat else None.

Fixpoint parse_digits (acc : nat) (s : string) : option nat :=
  match s with
  | EmptyString => Some acc
  | String a s' =>
      match digit_of a with
      | Some d => parse_digits (10 * acc + d) s'
      | None => None
      end
  end.

(** [handle.match(/^target-out-(\d+)$/)] followed by [parseInt]: the
    index, when the handle is [target-out-] and at least one digit. *)
Definition indexMatch (handle : string) : option nat :=
  if startsWith "target-out-" handle then
    match drop_chars 11 handle with
    | EmptyString => None
    | digits => parse_digits 0 digits
    end
  else None.

(** [template.containers.find(c => c.name === n)] *)
Definition find_container (template : TemplateMetadata) (n : string)
    : option ContainerDefinition :=
  List.find (λ c, bool_decide (container_name c = n)) (containers template).

(** Strategies A to D for the handle of the target edge. *)
Definition containerDefinition (template : TemplateMetadata) (handle : string)
    : option ContainerDefinition :=
  (* Strategy A: exact name match *)
  let a := find_container template handle in
  (* Strategy B: bounds prefix match *)
  let b :=
    match a with
    | Some c => Some c
    | None =>
        if startsWith "slot-bounds-" handle
        then find_container template (remove_first "slot-bounds-" handle)
        else None
    end in
  (* Strategy C: indexed handle match *)
  let c :=
    match b with
    | Some c => Some c
    | None =>
        match indexMatch handle with
        | Some index => containers template !! index
        | None => None
        end
    end in
  (* Strategy D: fallback for single container templates *)
  match c with
  | Some c => Some c
  | None =>
      if bool_decide (length (containers template) = 1%nat)
      then containers template !! 0%nat
      else None
  end.

(** 2. Resolve target, for the instance [i]. *)
Definition resolveTarget (edges : list Edge) (id : string)
    (templateRegistry : gmap string TemplateMetadata) (i : nat)
    : option TargetData :=
  let targetHandleId := "target-in-" +:+ pretty i in
  match find_edge edges id targetHandleId with
  | Some targetEdge =>
      match truthy_handle (edge_sourceHandle targetEdge) with
      | Some handle =>
          match templateRegistry !! edge_source targetEdge with
          | Some template =>
              match containerDefinition template handle with
              | Some c =>
                  Some {| target_name :=
                            or_string (originalName c) (container_name c);
                          target_bounds := container_bounds c |}
              | None => None
              end
          | None => None
          end
      | None => None
      end
  | None => None
  end.

Record InstanceData : Type := mkInstanceData {
  instance_index : nat;
  instance_source : option SourceResolution;
  instance_target : option TargetData;
  instance_payload : option TransformedPayload;
  strategyUsed : bool
}.

(** The body of [for (let i = 0; i < instanceCount; i++)]. *)
Definition computeInstance (edges : list Edge) (nodes : list Node) (id : string)
    (resolvedRegistry : gmap string (gmap string MappingContext))
    (templateRegistry : gmap string TemplateMetadata) (i : nat) : InstanceData :=
  let sourceData := resolveSource edges nodes id resolvedRegistry i in
  let targetData := resolveTarget edges id templateRegistry i in
  {| instance_index := i;
     instance_source := sourceData;
     instance_target := targetData;
     instance_payload :=
       computePayload (resolved_source <$> sourceData) targetData;
     strategyUsed :=
       match sourceData, targetData with
       | Some src, Some _ => bool_decide (is_Some (aiStrategy (resolved_source src)))
       | _, _ => false
       end |}.

(** [data.instanceCount || 1] *)
Definition instanceCount (count : option nat) : nat :=
  match count with
  | Some (S n) => S n
  | _ => 1%nat
  end.

Definition instances (edges : list Edge) (nodes : list Node) (id : string)
    (resolvedRegistry : gmap string (gmap string MappingContext))
    (templateRegistry : gmap string TemplateMetadata) (count : option nat)
    : list InstanceData :=
  computeInstance edges nodes id resolvedRegistry templateRegistry
  <$> seq 0 (instanceCount count).

(** The payloads handed to [registerPayload], keyed by output handle. *)
Definition registered_payloads (insts : list InstanceData)
    : list (string * TransformedPayload) :=
  omap (λ inst, (λ p, ("result-out-" +:+ pretty (instance_index inst), p))
                <$> instance_payload inst) insts.

(** [addInstance]: the callback given to [setNodes]. *)
Definition addInstance (id : string) (nds : list Node) : list Node :=
  (λ node,
     if bool_decide (node_id node = id)
     then mkNode (node_id node) (node_type node)
            (Some (instanceCount (node_instanceCount node) + 1)%nat)
     else node) <$> nds.

(** ** Vocabulary for the remapper *)

(** The target the remapper resolves from the container [c]. *)
Definition target_of (c : ContainerDefinition) : TargetData :=
  {| target_name := or_string (originalName c) (container_name c);
     target_bounds := container_bounds c |}.

(** The output handle of the instance [i]. *)
Definition result_handle (i : nat) : string := "result-out-" +:+ pretty i.

(** A container renamed by a proxy node. *)
Definition renamed_slot : ContainerDefinition :=
  mkContainerDefinition "c0" "target-out-0" "BG" demo_target demo_target.

Definition demo_source_data : SourceData :=
  mkSourceData "SOURCE" "load-1" "source-out-0" [dot] demo_source None.

(** *** A remapper wired to a resolver and a template *)

Definition remap_nodes : list Node :=
  [ mkNode "resolver-1" (Some "containerResolver") None;
    mkNode "load-1" (Some "loadPsd") None;
    mkNode "remap-1" (Some "remapper") None ].

Definition remap_edges : list Edge :=
  [ mkEdge "resolver-1" (Some "source-out-0") "remap-1" (Some "source-in-0");
    mkEdge "template-1" (Some "target-out-1") "remap-1" (Some "target-in-0") ].

Definition remap_resolved : gmap string (gmap string MappingContext) :=
  {[ "resolver-1" :=
       {[ "source-out-0" :=
            mkMappingContext
              (mkContainerContext "SYMBOLS" demo_source (num 1024, num 768))
              [dot] resolved None None ]} ]}.

(** *** Two remappers plugged into the same slot *)

Definition second_payload : TransformedPayload :=
  mkTransformedPayload success "load-2" "OTHER" "BG" [] (num 2)
    (mkMetrics (num 10, num 10) (num 50, num 50)).

Definition dup_edges : list Edge :=
  [ mkEdge "remap-1" (Some "result-out-0") "export-1" (Some "input-BG");
    mkEdge "remap-2" (Some "result-out-0") "export-1" (Some "input-BG") ].

Definition dup_payloads : gmap string (gmap string TransformedPayload) :=
  <[ "remap-1" := {[ "result-out-0" := payload_for "BG" ]} ]>
  {[ "remap-2" := {[ "result-out-0" := second_payload ]} ]}.

(** ** Vocabulary for the export *)

(** The slot of the container [c] holds a payload. *)
Definition filled (slotConnections : gmap string TransformedPayload)
    (c : ContainerDefinition) : Prop :=
  is_Some (slotConnections !! container_name c).

Global Instance filled_dec (slotConnections : gmap string TransformedPayload)
    (c : ContainerDefinition) : Decision (filled slotConnections c).
Proof. unfold filled. apply _. Defined.

(** [g] is the group the export builds for the container [c]. *)
Definition group_of (findLayerByPath : Psd → string → option Layer)
    (psdRegistry : gmap string Psd)
    (slotConnections : gmap string TransformedPayload)
    (c : ContainerDefinition) (g : Layer) : Prop :=
  ∃ payload sourcePsd,
    slotConnections !! container_name c = Some payload
    ∧ psdRegistry !! sourceNodeId payload = Some sourcePsd
    ∧ psd_name g = Some (originalName c)
    ∧ psd_children g
      = Some (reconstructHierarchy findLayerByPath (layers payload) sourcePsd)
    ∧ opened g = Some true
    ∧ top g = Some (rect_y (container_bounds c))
    ∧ left g = Some (rect_x (container_bounds c))
    ∧ bottom g
      = Some (rect_y (container_bounds c) + rect_h (container_bounds c))
    ∧ right g
      = Some (rect_x (container_bounds c) + rect_w (container_bounds c)).

(** The source document of the payload in the slot of [c], if there is
    a payload, is registered. *)
Definition document_present (psdRegistry : gmap string Psd)
    (slotConnections : gmap string TransformedPayload)
    (c : ContainerDefinition) : Prop :=
  ∀ payload, slotConnections !! container_name c = Some payload →
             is_Some (psdRegistry !! sourceNodeId payload).

(** *** Reconstructed trees *)

(** Structural induction through the [children] arrays of transformed
    layers. *)
Section TransformedLayerInduction.
Variable P : TransformedLayer → Prop.
Hypothesis step : ∀ t,
  (∀ cs, tl_children t = Some cs → Forall P cs) → P t.

Fixpoint TransformedLayer_tree_ind (t : TransformedLayer) : P t :=
  step t
    (match t as t0
           return ∀ cs, tl_children t0 = Some cs → Forall P cs with
     | mkTransformedLayer _ _ _ ch _ _ _ _ =>
         match ch as ch0
               return ∀ cs, ch0 = Some cs → Forall P cs with
         | None => λ cs (E : None = Some cs),
             match E in _ = o
                   return match o with Some _ => Forall P cs | None => True end
             with eq_refl => I end
         | Some cs0 => λ cs (E : Some cs0 = Some cs),
             match E in _ = o
                   return match o with Some c => Forall P c | None => True end
             with
             | eq_refl =>
                 (fix go (ls : list TransformedLayer) : Forall P ls :=
                    match ls with
                    | [] => @List.Forall_nil _ P
                    | c :: ls' =>
                        @List.Forall_cons _ P c ls'
                          (TransformedLayer_tree_ind c) (go ls')
                    end) cs0
             end
         end
     end).
End TransformedLayerInduction.

(** The number of layers of an output tree. *)
Fixpoint layer_size (l : Layer) : nat :=
  S match psd_children l with
    | Some cs => list_sum (List.map layer_size cs)
    | None => 0
    end.

(** What a reconstructed layer keeps of the original one. *)
Definition original_part (l : Layer) : option string * list (string * string) :=
  (psd_name l, preserved l).
(** * Properties *)

(** Arithmetic is unfolded by the rewriting lemmas of the next section
    only. *)
Global Arguments add : simpl never.
Global Arguments sub : simpl never.
Global Arguments mul : simpl never.
Global Arguments div : simpl never.

(** ** Numbers *)

Global Instance number_equivalence : Equivalence (≡@{number}).
Proof.
  split.
  - intros [q| | |]; unfold equiv, number_equiv; simpl; try done.
    apply Qeq_bool_iff; reflexivity.
  - intros [x| | |] [y| | |]; unfold equiv, number_equiv; simpl; try done.
    rewrite !Qeq_bool_iff. intros ->; reflexivity.
  - intros [x| | |] [y| | |] [z| | |]; unfold equiv, number_equiv; simpl;
      try done.
    rewrite !Qeq_bool_iff. intros -> ->; reflexivity.
Qed.

Lemma Fin_equiv (x y : Q) : Fin x ≡ Fin y ↔ (x == y)%Q.
Proof. unfold equiv, number_equiv; simpl. apply Qeq_bool_iff. Qed.

Lemma Qsgn_pos (q : Q) : (0 < q)%Q → Qsgn q = Gt.
Proof. intros H. unfold Qsgn. by apply Qgt_alt. Qed.

Lemma Qsgn_nonzero (q : Q) : ¬ (q == 0)%Q → Qsgn q ≠ Eq.
Proof. intros H E. apply H. by apply Qeq_alt. Qed.

Lemma div_Fin (x y : Q) : ¬ (y == 0)%Q → Fin x / Fin y = Fin (x / y).
Proof.
  intros H. unfold div. pose proof (Qsgn_nonzero y H).
  by destruct (Qsgn y).
Qed.

Lemma min_Fin_cases (x y : Q) :
  min (Fin x) (Fin y) = Fin x ∧ (x <= y)%Q ∨
  min (Fin x) (Fin y) = Fin y ∧ (y <= x)%Q.
Proof.
  simpl. destruct (Qle_bool x y) eqn:E.
  - left. split; [done|]. by apply Qle_bool_iff.
  - right. split; [done|]. destruct (Qlt_le_dec y x) as [H|H].
    + by apply Qlt_le_weak.
    + apply Qle_bool_iff in H. congruence.
Qed.


Lemma add_Fin (x y : Q) : Fin x + Fin y = Fin (x + y).
Proof. reflexivity. Qed.

Lemma sub_Fin (x y : Q) : Fin x - Fin y = Fin (x - y).
Proof. reflexivity. Qed.

Lemma mul_Fin (x y : Q) : Fin x * Fin y = Fin (x * y).
Proof. reflexivity. Qed.

Lemma two_nonzero : ¬ (inject_Z 2 == 0)%Q.
Proof. discriminate. Qed.

Lemma Qpos_nonzero (q : Q) : (0 < q)%Q → ¬ (q == 0)%Q.
Proof. intros H E. rewrite E in H. by apply Qlt_irrefl in H. Qed.

(** Evaluate arithmetic on finite operands. *)
Ltac fin_arith :=
  unfold num, frac;
  repeat first
    [ rewrite add_Fin | rewrite sub_Fin | rewrite mul_Fin
    | rewrite div_Fin by (first [ exact two_nonzero
                                | apply Qpos_nonzero; assumption
                                | assumption ]) ].

(** ** Transform resolver *)

(** The resolver without strategy on finite rectangles with positive
    source dimensions, in rational arithmetic. *)
Lemma resolve_default_Q (sx sy sw sh tx ty tw th : Q) :
  (0 < sw)%Q → (0 < sh)%Q →
  let s := Qmin (tw / sw) (th / sh) in
  let r := resolve (rectQ sx sy sw sh) (rectQ tx ty tw th) None in
  scale r ≡ Fin s
  ∧ anchorX r ≡ Fin (tx + (tw - sw * s) / 2)%Q
  ∧ anchorY r ≡ Fin (ty + (th - sh * s) / 2)%Q.
Proof.
  intros Hw Hh s r. subst r.
  unfold resolve, rectQ; cbn [rect_x rect_y rect_w rect_h scale anchorX anchorY].
  fin_arith.
  destruct (min_Fin_cases (tw / sw) (th / sh)) as [[-> Hle]|[-> Hle]];
    fin_arith; subst s; rewrite !Fin_equiv.
  - rewrite (Q.min_l _ _ Hle). repeat split; reflexivity.
  - rewrite (Q.min_r _ _ Hle). repeat split; reflexivity.
Qed.

(** C4. With no strategy the scale is [min (tw/sw) (th/sh)] and the
    anchor centers the scaled source rectangle in the target on both
    axes: the resolver evaluates exactly these expressions, and for
    positive source dimensions they are the rational numbers of the
    formula.  For source [{0,0,100,200}] and target [{10,10,50,50}] the
    scale is 0.25, the anchor is (22.5, 10), and an element occupying
    the whole source rectangle is mapped to [{22.5, 10, 25, 50}]. *)
Theorem C4_default_fit_centered :
  (∀ sourceRect targetRect : Rect,
     let s := min (rect_w targetRect / rect_w sourceRect)
                  (rect_h targetRect / rect_h sourceRect) in
     resolve sourceRect targetRect None
     = mkResolved s
         (rect_x targetRect + (rect_w targetRect - rect_w sourceRect * s) / num 2)
         (rect_y targetRect + (rect_h targetRect - rect_h sourceRect * s) / num 2))
  ∧ (∀ sx sy sw sh tx ty tw th : Q,
       (0 < sw)%Q → (0 < sh)%Q →
       let s := Qmin (tw / sw) (th / sh) in
       let r := resolve (rectQ sx sy sw sh) (rectQ tx ty tw th) None in
       scale r ≡ Fin s
       ∧ anchorX r ≡ Fin (tx + (tw - sw * s) / 2)%Q
       ∧ anchorY r ≡ Fin (ty + (th - sh * s) / 2)%Q)
  ∧ (let r := resolve demo_source demo_target None in
     scale r ≡ frac 1 4 ∧ anchorX r ≡ frac 45 2 ∧ anchorY r ≡ num 10
     ∧ ∀ l : SerializableLayer,
         coords l = demo_source →
         tl_coords (transformLayer demo_source demo_target
                      (scale r) (anchorX r) (anchorY r) None l (num 0) (num 0))
         ≡ rectQ (45 # 2) 10 25 50).
Proof.
  split; [done|]. split.
  - intros sx sy sw sh tx ty tw th Hw Hh. by apply resolve_default_Q.
  - cbv zeta. do 3 (split; [by vm_compute|]).
    intros [i n t ch v o c] Hc. simpl in Hc. subst c.
    destruct ch; by vm_compute.
Qed.

(** [C4_default_fit_centered] at the rectangles of the end-to-end
    scenario and a leaf that fills the source rectangle. *)
Lemma C4_default_fit_centered_witness :
  (let r := resolve demo_source demo_target None in
   scale r ≡ Fin (Qmin (50 / 100) (50 / 200))
   ∧ anchorX r ≡ Fin (10 + (50 - 100 * Qmin (50 / 100) (50 / 200)) / 2)%Q
   ∧ anchorY r ≡ Fin (10 + (50 - 200 * Qmin (50 / 100) (50 / 200)) / 2)%Q)
  ∧ tl_coords
      (transformLayer demo_source demo_target
         (scale (resolve demo_source demo_target None))
         (anchorX (resolve demo_source demo_target None))
         (anchorY (resolve demo_source demo_target None))
         None root_leaf (num 0) (num 0))
    ≡ rectQ (45 # 2) 10 25 50.
Proof.
  destruct C4_default_fit_centered as (_ & Hq & _ & _ & _ & Hl).
  split.
  - apply (Hq 0 0 100 200 10 10 50 50)%Q; reflexivity.
  - apply Hl. reflexivity.
Defined.

(** ** Resolver with a strategy *)

(** C8. With a strategy the scale is [suggestedScale] as supplied, the
    horizontal anchor centers the scaled source, and the vertical anchor
    is the target top for [TOP], the target bottom minus the scaled
    height for [BOTTOM], and the centered position for [CENTER],
    [STRETCH] and every other value. *)
Theorem C8_strategy_anchor (sourceRect targetRect : Rect) (s : LayoutStrategy) :
  let r := resolve sourceRect targetRect (Some s) in
  let scaledW := rect_w sourceRect * suggestedScale s in
  let scaledH := rect_h sourceRect * suggestedScale s in
  let centeredY :=
    rect_y targetRect + (rect_h targetRect - scaledH) / num 2 in
  scale r = suggestedScale s
  ∧ anchorX r = rect_x targetRect + (rect_w targetRect - scaledW) / num 2
  ∧ (anchor s = "TOP" → anchorY r = rect_y targetRect)
  ∧ (anchor s = "BOTTOM" →
     anchorY r = rect_y targetRect + (rect_h targetRect - scaledH))
  ∧ (anchor s = "CENTER" → anchorY r = centeredY)
  ∧ (anchor s = "STRETCH" → anchorY r = centeredY)
  ∧ (anchor s ≠ "TOP" → anchor s ≠ "BOTTOM" → anchorY r = centeredY).
Proof.
  cbv zeta. unfold resolve. cbn [scale anchorX anchorY].
  split; [done|]. split; [done|].
  split; [by intros ->|]. split; [by intros ->|].
  split; [by intros ->|]. split; [by intros ->|].
  intros Ht Hb.
  by rewrite (bool_decide_eq_false_2 _ Ht), (bool_decide_eq_false_2 _ Hb).
Qed.

(** [C8_strategy_anchor] for the four anchors of the type and one
    value outside it, on the end-to-end rectangles with scale 0.1
    (scaled height 20). *)
Lemma C8_strategy_anchor_witness :
  let r a := resolve demo_source demo_target
               (Some (mkLayoutStrategy (frac 1 10) a "" "" None)) in
  anchorY (r "TOP") ≡ num 10
  ∧ anchorY (r "BOTTOM") ≡ num 40
  ∧ anchorY (r "CENTER") ≡ num 25
  ∧ anchorY (r "STRETCH") ≡ num 25
  ∧ anchorY (r "MIDDLE") ≡ num 25.
Proof.
  intros r.
  pose proof (λ a, C8_strategy_anchor demo_source demo_target
                     (mkLayoutStrategy (frac 1 10) a "" "" None)) as H.
  destruct (H "TOP") as (_ & _ & Ht & _).
  destruct (H "BOTTOM") as (_ & _ & _ & Hb & _).
  destruct (H "CENTER") as (_ & _ & _ & _ & Hc & _).
  destruct (H "STRETCH") as (_ & _ & _ & _ & _ & Hs & _).
  destruct (H "MIDDLE") as (_ & _ & _ & _ & _ & _ & Hm).
  subst r. cbv beta.
  rewrite Ht, Hb, Hc, Hs, Hm by (reflexivity || discriminate).
  repeat split; by vm_compute.
Defined.

(** ** Tree transformer *)

Section TransformerFacts.
Variables (sourceRect targetRect : Rect).
Variables (scale anchorX anchorY : number).
Variable strategy : option LayoutStrategy.

Local Abbreviation place :=
  (place sourceRect targetRect scale anchorX anchorY strategy).
Local Abbreviation transformLayer :=
  (transformLayer sourceRect targetRect scale anchorX anchorY strategy).
Local Abbreviation transformLayers :=
  (transformLayers sourceRect targetRect scale anchorX anchorY strategy).

Lemma transformLayer_children (l : SerializableLayer) (dx dy : number) :
  tl_children (transformLayer l dx dy)
  = (λ cs, transformLayers cs (currentDeltaX (place l dx dy))
                              (currentDeltaY (place l dx dy)))
    <$> layer_children l.
Proof. destruct l as [i n t [cs|] v o c]; reflexivity. Qed.

Lemma transformLayer_shape (l : SerializableLayer) :
  ∀ dx dy, tshape_of (transformLayer l dx dy) = shape_of l.
Proof.
  induction l as [l IH] using SerializableLayer_tree_ind. intros dx dy.
  destruct l as [i n t [cs|] v o c]; simpl; [|done].
  do 2 f_equal. specialize (IH cs eq_refl).
  rewrite List.map_map. apply List.map_ext_Forall.
  eapply Forall_impl; [exact IH|]. intros x Hx. apply Hx.
Qed.

Lemma transformLayers_shape (ls : list SerializableLayer) (dx dy : number) :
  List.map tshape_of (transformLayers ls dx dy) = List.map shape_of ls.
Proof.
  unfold transformLayers. rewrite List.map_map.
  apply List.map_ext. intros l. apply transformLayer_shape.
Qed.

Lemma transformLayer_offsets (l : SerializableLayer) :
  ∀ dx dy, Forall offsets_are_position (tnodes (transformLayer l dx dy)).
Proof.
  induction l as [l IH] using SerializableLayer_tree_ind. intros dx dy.
  destruct l as [i n t [cs|] v o c]; simpl.
  - constructor; [done|]. specialize (IH cs eq_refl).
    rewrite List.flat_map_concat_map, List.map_map, <- List.flat_map_concat_map.
    apply Forall_flat_map. eapply Forall_impl; [exact IH|].
    intros x Hx. apply Hx.
  - by repeat constructor.
Qed.

Lemma transformLayers_offsets (ls : list SerializableLayer) (dx dy : number) :
  Forall offsets_are_position (List.flat_map tnodes (transformLayers ls dx dy)).
Proof.
  apply Forall_flat_map. unfold transformLayers. apply Forall_map.
  apply Forall_forall. intros l _. apply transformLayer_offsets.
Qed.

Lemma transformLayer_nodes_length (l : SerializableLayer) :
  ∀ dx dy, length (tnodes (transformLayer l dx dy)) = length (nodes l).
Proof.
  induction l as [l IH] using SerializableLayer_tree_ind. intros dx dy.
  destruct l as [i n t [cs|] v o c]; simpl; [|done].
  f_equal. specialize (IH cs eq_refl).
  rewrite !List.flat_map_concat_map, List.map_map.
  rewrite !length_concat. f_equal.
  rewrite !List.map_map. apply List.map_ext_Forall.
  eapply Forall_impl; [exact IH|]. intros x Hx. apply Hx.
Qed.

(** C7. The output of the tree transformer has the identifiers, kinds
    and child order of its input, one output element per input element,
    and the [offsetX]/[offsetY] of every output element are its final
    top-left corner. *)
Theorem C7_shape_preserved (ls : list SerializableLayer) (dx dy : number) :
  let out := transformLayers ls dx dy in
  List.map tshape_of out = List.map shape_of ls
  ∧ length (List.flat_map tnodes out) = length (List.flat_map nodes ls)
  ∧ Forall offsets_are_position (List.flat_map tnodes out).
Proof.
  cbv zeta. split; [apply transformLayers_shape|].
  split; [|apply transformLayers_offsets].
  unfold transformLayers.
  rewrite !List.flat_map_concat_map, List.map_map, !length_concat.
  f_equal. rewrite !List.map_map. apply List.map_ext.
  intros l. apply transformLayer_nodes_length.
Qed.

Lemma transformLayer_coords (l : SerializableLayer) (dx dy : number) :
  let p := place l dx dy in
  tl_coords (transformLayer l dx dy)
  = mkRect (finalX p) (finalY p)
      (rect_w (coords l) * layerScaleX p) (rect_h (coords l) * layerScaleY p).
Proof. destruct l as [i n t [cs|] v o c]; reflexivity. Qed.

Lemma transformLayer_transform (l : SerializableLayer) (dx dy : number) :
  let p := place l dx dy in
  transform (transformLayer l dx dy)
  = mkTransform (layerScaleX p) (layerScaleY p) (finalX p) (finalY p).
Proof. destruct l as [i n t [cs|] v o c]; reflexivity. Qed.

Lemma place_geom (l : SerializableLayer) (dx dy : number) :
  geomX (place l dx dy)
  = anchorX + (rect_x (coords l) - rect_x sourceRect) / rect_w sourceRect
              * (rect_w sourceRect * scale)
  ∧ geomY (place l dx dy)
  = anchorY + (rect_y (coords l) - rect_y sourceRect) / rect_h sourceRect
              * (rect_h sourceRect * scale).
Proof. unfold place. by destruct (find_override _ _). Qed.

Lemma place_clamped (l : SerializableLayer) (dx dy : number) :
  finalY (place l dx dy) = clampY targetRect (unclampedY (place l dx dy)).
Proof. unfold place. by destruct (find_override _ _). Qed.

Lemma place_plain (l : SerializableLayer) (dx dy : number) :
  find_override strategy (layer_id l) = None →
  let p := place l dx dy in
  finalX p = geomX p + dx ∧ unclampedY p = geomY p + dy
  ∧ currentDeltaX p = dx ∧ currentDeltaY p = dy
  ∧ layerScaleX p = scale ∧ layerScaleY p = scale.
Proof. intros H. unfold place. by rewrite H. Qed.

Lemma place_override (l : SerializableLayer) (o : LayerOverride) (dx dy : number) :
  find_override strategy (layer_id l) = Some o →
  let p := place l dx dy in
  finalX p = rect_x targetRect + xOffset o
  ∧ unclampedY p = rect_y targetRect + yOffset o
  ∧ currentDeltaX p = rect_x targetRect + xOffset o - geomX p
  ∧ currentDeltaY p = rect_y targetRect + yOffset o - geomY p
  ∧ layerScaleX p = scale * individualScale o
  ∧ layerScaleY p = scale * individualScale o.
Proof. intros H. unfold place. by rewrite H. Qed.

Lemma tchild_transformLayer (i : nat) (l : SerializableLayer) (dx dy : number) :
  tchild i (transformLayer l dx dy)
  = (λ c, transformLayer c (currentDeltaX (place l dx dy))
                           (currentDeltaY (place l dx dy)))
    <$> child i l.
Proof.
  unfold tchild, child. rewrite transformLayer_children.
  destruct (layer_children l) as [cs|]; [|done]. simpl.
  unfold transformLayers. apply list_lookup_fmap.
Qed.

(** The recursive calls below an element hand its delta down unchanged
    as long as no override is met. *)
Lemma tdescend_plain_path (p : list nat) :
  ∀ (l D : SerializableLayer) (dx dy : number),
    p ≠ [] → descend p l = Some D → plain_path strategy p l →
    tdescend p (transformLayer l dx dy)
    = Some (transformLayer D (currentDeltaX (place l dx dy))
                             (currentDeltaY (place l dx dy))).
Proof.
  induction p as [|i p IH]; intros l D dx dy Hne Hd Hp; [done|].
  simpl in *. rewrite tchild_transformLayer.
  destruct (child i l) as [c|]; [|done]. simpl.
  destruct Hp as [Hc Hp].
  destruct p as [|j p].
  - simpl in *. congruence.
  - rewrite (IH c D _ _) by done.
    destruct (place_plain c (currentDeltaX (place l dx dy))
                (currentDeltaY (place l dx dy)) Hc) as (_ & _ & -> & -> & _).
    done.
Qed.

(** C9. The delta an element hands to its children is computed from
    its position before the vertical clamp: for an overridden element it
    is [(aiX - geomX, aiY - geomY)] with the unclamped [aiY], otherwise
    the inherited delta; the element's own Y is the clamp of that
    position, and every child is transformed with the unclamped delta and
    clamped on its own. *)
Theorem C9_children_inherit_unclamped_delta
    (l : SerializableLayer) (dx dy : number) :
  let p := place l dx dy in
  rect_y (tl_coords (transformLayer l dx dy))
  = clampY targetRect (unclampedY p)
  ∧ (∀ o, find_override strategy (layer_id l) = Some o →
       unclampedY p = rect_y targetRect + yOffset o
       ∧ currentDeltaX p = rect_x targetRect + xOffset o - geomX p
       ∧ currentDeltaY p = unclampedY p - geomY p)
  ∧ (find_override strategy (layer_id l) = None →
       currentDeltaX p = dx ∧ currentDeltaY p = dy)
  ∧ tl_children (transformLayer l dx dy)
    = (λ cs, transformLayers cs (currentDeltaX p) (currentDeltaY p))
      <$> layer_children l
  ∧ (∀ i c, child i l = Some c →
       let t := transformLayer c (currentDeltaX p) (currentDeltaY p) in
       tchild i (transformLayer l dx dy) = Some t
       ∧ rect_y (tl_coords t)
         = clampY targetRect
             (unclampedY (place c (currentDeltaX p) (currentDeltaY p)))
       ∧ (find_override strategy (layer_id c) = None →
          rect_y (tl_coords t)
          = clampY targetRect
              (geomY (place c (currentDeltaX p) (currentDeltaY p))
               + currentDeltaY p))).
Proof.
  cbv zeta. split.
  { rewrite transformLayer_coords. simpl. apply place_clamped. }
  split.
  { intros o Ho.
    destruct (place_override l o dx dy Ho) as (_ & Hy & Hdx & Hdy & _).
    rewrite Hy. done. }
  split.
  { intros Hn. by destruct (place_plain l dx dy Hn) as (_ & _ & ? & ? & _). }
  split; [apply transformLayer_children|].
  intros i c Hc. split; [by rewrite tchild_transformLayer, Hc|].
  split.
  { rewrite transformLayer_coords. simpl. apply place_clamped. }
  intros Hn. rewrite transformLayer_coords. simpl. rewrite place_clamped.
  by destruct (place_plain c (currentDeltaX (place l dx dy))
                (currentDeltaY (place l dx dy)) Hn) as (_ & -> & _).
Qed.

Lemma place_geom_indep (l : SerializableLayer) (dx dy dx' dy' : number) :
  geomX (place l dx dy) = geomX (place l dx' dy')
  ∧ geomY (place l dx dy) = geomY (place l dx' dy').
Proof.
  destruct (place_geom l dx dy) as [-> ->].
  destruct (place_geom l dx' dy') as [-> ->]. done.
Qed.

Lemma transformLayer_id (l : SerializableLayer) (dx dy : number) :
  tl_id (transformLayer l dx dy) = layer_id l.
Proof. by destruct l as [i n t [cs|] v o c]. Qed.

Lemma plain_path_end (path : list nat) :
  ∀ E D : SerializableLayer,
    path ≠ [] → descend path E = Some D → plain_path strategy path E →
    find_override strategy (layer_id D) = None.
Proof.
  induction path as [|i q IH]; intros E D Hne Hd Hp; [done|].
  simpl in *. destruct (child i E) as [c|]; [|done].
  destruct Hp as [Hc Hp]. destruct q as [|j q].
  - simpl in Hd. by simplify_eq.
  - by apply (IH c D).
Qed.

(** Where an element below an overridden one lands. *)
Lemma override_descendant (E D : SerializableLayer) (path : list nat)
    (dx dy : number) :
  path ≠ [] → descend path E = Some D → plain_path strategy path E →
  let p := place E dx dy in
  ∃ tD, tdescend path (transformLayer E dx dy) = Some tD
        ∧ tl_id tD = layer_id D
        ∧ rect_x (tl_coords tD)
          = geomX (place D (num 0) (num 0)) + currentDeltaX p
        ∧ rect_y (tl_coords tD)
          = clampY targetRect (geomY (place D (num 0) (num 0)) + currentDeltaY p).
Proof.
  intros Hne Hd Hp p. subst p.
  pose proof (plain_path_end path E D Hne Hd Hp) as HD.
  eexists. split; [by apply tdescend_plain_path|].
  split; [apply transformLayer_id|].
  rewrite transformLayer_coords. simpl. rewrite place_clamped.
  destruct (place_plain D (currentDeltaX (place E dx dy))
              (currentDeltaY (place E dx dy)) HD) as (-> & -> & _).
  destruct (place_geom_indep D (currentDeltaX (place E dx dy))
              (currentDeltaY (place E dx dy)) (num 0) (num 0)) as [-> ->].
  done.
Qed.

(** *** Clamping *)


(** *** Every element of the output *)

(** What holds of the image of any element under any deltas holds of
    every element of the output tree. *)
Lemma tnodes_transformLayer (P : TransformedLayer → Prop) :
  (∀ D dx dy, P (transformLayer D dx dy)) →
  ∀ l dx dy, Forall P (tnodes (transformLayer l dx dy)).
Proof.
  intros HP l. induction l as [l IH] using SerializableLayer_tree_ind.
  intros dx dy. pose proof (HP l dx dy) as Hself.
  destruct l as [i n t [cs|] v o c]; simpl.
  - constructor; [exact Hself|].
    specialize (IH cs eq_refl).
    rewrite List.flat_map_concat_map, List.map_map, <- List.flat_map_concat_map.
    apply Forall_flat_map.
    eapply Forall_impl; [exact IH|]. intros x Hx. apply Hx.
  - constructor; [exact Hself|constructor].
Qed.

Lemma tnodes_transformLayers (P : TransformedLayer → Prop) :
  (∀ D dx dy, P (transformLayer D dx dy)) →
  ∀ ls dx dy, Forall P (List.flat_map tnodes (transformLayers ls dx dy)).
Proof.
  intros HP ls dx dy. apply Forall_flat_map. unfold transformLayers.
  apply Forall_map. apply Forall_forall. intros l _.
  by apply tnodes_transformLayer.
Qed.

(** The element at a path of the source has its image at the same path
    of the output. *)
Lemma tdescend_transformLayer (p : list nat) :
  ∀ (l e : SerializableLayer) (dx dy : number),
    descend p l = Some e →
    ∃ dx' dy',
      tdescend p (transformLayer l dx dy) = Some (transformLayer e dx' dy').
Proof.
  induction p as [|i p IH]; intros l e dx dy H; simpl in *.
  - simplify_eq. by eexists _, _.
  - rewrite tchild_transformLayer.
    destruct (child i l) as [c|]; [|done]. simpl. by apply IH.
Qed.

(** *** A source without width or height *)

Lemma equiv_zero (z : number) : z ≡ num 0 → ∃ q, z = Fin q ∧ (q == 0)%Q.
Proof.
  destruct z as [q| | |]; try done. intros H. exists q. split; [done|].
  by apply Fin_equiv in H.
Qed.

(** [(a / 0) * (0 * s)] is [NaN] whatever [a] and [s] are. *)
Lemma div_zero_mul_zero (a s z : number) : z ≡ num 0 → a / z * (z * s) = NaN.
Proof.
  intros (q & -> & Hq)%equiv_zero.
  assert (Qsgn q = Eq) as Eq0 by (unfold Qsgn; by apply Qeq_alt).
  assert (∀ v, Qsgn (q * v) = Eq) as Eqv.
  { intros v. unfold Qsgn. apply Qeq_alt. rewrite Hq. ring. }
  unfold div, mul.
  destruct a as [x| | |], s as [v| | |]; rewrite ?Eq0; simpl;
    try reflexivity;
    try (destruct (Qsgn x); simpl; rewrite ?Eqv; reflexivity);
    rewrite ?Eqv; reflexivity.
Qed.

Lemma add_NaN_r (a : number) : a + NaN = NaN.
Proof. by destruct a. Qed.

Lemma clampY_NaN : clampY targetRect NaN = NaN.
Proof. unfold clampY. simpl. by destruct (minY targetRect). Qed.

Lemma place_zero_width (l : SerializableLayer) (dx dy : number) :
  rect_w sourceRect ≡ num 0 → geomX (place l dx dy) = NaN.
Proof.
  intros Hw. destruct (place_geom l dx dy) as [-> _].
  by rewrite div_zero_mul_zero, add_NaN_r.
Qed.

Lemma place_zero_height (l : SerializableLayer) (dx dy : number) :
  rect_h sourceRect ≡ num 0 → geomY (place l dx dy) = NaN.
Proof.
  intros Hh. destruct (place_geom l dx dy) as [_ ->].
  by rewrite div_zero_mul_zero, add_NaN_r.
Qed.

Lemma transformLayer_zero_width (l : SerializableLayer) (dx dy : number) :
  rect_w sourceRect ≡ num 0 →
  not_overridden strategy (transformLayer l dx dy) →
  rect_x (tl_coords (transformLayer l dx dy)) = NaN.
Proof.
  unfold not_overridden. rewrite transformLayer_id. intros Hw Hn.
  rewrite transformLayer_coords. cbn [rect_x].
  destruct (place_plain l dx dy Hn) as (-> & _).
  by rewrite place_zero_width.
Qed.

Lemma transformLayer_zero_height (l : SerializableLayer) (dx dy : number) :
  rect_h sourceRect ≡ num 0 →
  not_overridden strategy (transformLayer l dx dy) →
  rect_y (tl_coords (transformLayer l dx dy)) = NaN.
Proof.
  unfold not_overridden. rewrite transformLayer_id. intros Hh Hn.
  rewrite transformLayer_coords. cbn [rect_y]. rewrite place_clamped.
  destruct (place_plain l dx dy Hn) as (_ & -> & _).
  rewrite place_zero_height by done. apply clampY_NaN.
Qed.

(** *** The clamp on arbitrary values *)








End TransformerFacts.

(** ** Payload computation and source geometry *)

(** A source rectangle of width and height zero is not rejected: the
    payload is built with status [success], scale [Infinity], and [NaN]
    coordinates. *)
Lemma C3_counterexample :
  ∃ p t, computePayload (Some empty_source) (Some demo_slot) = Some p
         ∧ status p = success
         ∧ scaleFactor p = PInf
         ∧ layers p = [t]
         ∧ rect_x (tl_coords t) = NaN ∧ rect_y (tl_coords t) = NaN.
Proof. do 2 eexists. repeat split; reflexivity. Qed.

Lemma div_pos_zero (x q : Q) : (0 < x)%Q → (q == 0)%Q → Fin x / Fin q = PInf.
Proof.
  intros Hx Hq. unfold div.
  assert (Qsgn q = Eq) as -> by (unfold Qsgn; by apply Qeq_alt).
  by rewrite Qsgn_pos.
Qed.

Lemma mul_zero_PInf (q : Q) : (q == 0)%Q → Fin q * PInf = NaN.
Proof.
  intros Hq. unfold mul.
  by assert (Qsgn q = Eq) as -> by (unfold Qsgn; by apply Qeq_alt).
Qed.

(** C3 (amended). The resolver checks nothing about the source
    rectangle: with source and target ready a [success] payload is always
    produced, carrying the resolved scale and one transformed layer per
    source layer.  A source dimension of zero is not rejected, it makes
    positions [NaN]: with a source width of zero every element of the
    output without an override of its own has the X [NaN], with a source
    height of zero every such element has the Y [NaN]; with both zero, a
    target of finite positive size and no strategy the scale is infinite
    and both anchors are [NaN]. *)
Theorem C3_no_geometry_validation :
  (∀ (src : SourceData) (tgt : TargetData),
     ∃ p, computePayload (Some src) (Some tgt) = Some p
          ∧ status p = success
          ∧ scaleFactor p
            = scale (resolve (originalBounds src) (target_bounds tgt)
                       (aiStrategy src))
          ∧ length (layers p) = length (source_layers src))
  ∧ (∀ (src : SourceData) (tgt : TargetData) (p : TransformedPayload),
       computePayload (Some src) (Some tgt) = Some p →
       (rect_w (originalBounds src) ≡ num 0 →
        Forall (λ t, not_overridden (aiStrategy src) t →
                     rect_x (tl_coords t) = NaN)
          (List.flat_map tnodes (layers p)))
       ∧ (rect_h (originalBounds src) ≡ num 0 →
          Forall (λ t, not_overridden (aiStrategy src) t →
                       rect_y (tl_coords t) = NaN)
            (List.flat_map tnodes (layers p))))
  ∧ (∀ (sourceRect targetRect : Rect) (tw th : Q),
       rect_w sourceRect ≡ num 0 → rect_h sourceRect ≡ num 0 →
       rect_w targetRect = Fin tw → rect_h targetRect = Fin th →
       (0 < tw)%Q → (0 < th)%Q →
       let r := resolve sourceRect targetRect None in
       is_finite (scale r) = false ∧ is_nan (scale r) = false
       ∧ anchorX r = NaN ∧ anchorY r = NaN).
Proof.
  split; [|split].
  - intros src tgt. eexists. split; [reflexivity|]. simpl.
    split; [done|]. split; [done|].
    unfold transformLayers. by rewrite length_map.
  - intros src tgt p [= <-]. cbn [layers]. split; intros Hz.
    + apply tnodes_transformLayers. intros D dx dy.
      by apply transformLayer_zero_width.
    + apply tnodes_transformLayers. intros D dx dy.
      by apply transformLayer_zero_height.
  - intros sourceRect targetRect tw th (qw & Ew & Hqw)%equiv_zero
      (qh & Eh & Hqh)%equiv_zero Etw Eth Hw Hh.
    unfold resolve. rewrite Ew, Eh, Etw, Eth.
    rewrite (div_pos_zero _ _ Hw Hqw), (div_pos_zero _ _ Hh Hqh).
    cbn [min scale anchorX anchorY].
    rewrite (mul_zero_PInf _ Hqw), (mul_zero_PInf _ Hqh).
    do 2 (split; [done|]).
    split; [by destruct (rect_x targetRect)|by destruct (rect_y targetRect)].
Qed.

(** [C3_no_geometry_validation] at a source without extent. *)
Lemma C3_no_geometry_validation_witness :
  (∃ p, computePayload (Some empty_source) (Some demo_slot) = Some p
        ∧ Forall (λ t, not_overridden None t → rect_x (tl_coords t) = NaN)
            (List.flat_map tnodes (layers p))
        ∧ Forall (λ t, not_overridden None t → rect_y (tl_coords t) = NaN)
            (List.flat_map tnodes (layers p)))
  ∧ is_finite (scale (resolve (rectQ 0 0 0 0) demo_target None)) = false
  ∧ anchorX (resolve (rectQ 0 0 0 0) demo_target None) = NaN.
Proof.
  destruct C3_no_geometry_validation as (Hp & Hn & Hz).
  split.
  - destruct (Hp empty_source demo_slot) as (p & Ep & _).
    destruct (Hn empty_source demo_slot p Ep) as [Hx Hy].
    exists p. split; [exact Ep|]. split; [apply Hx|apply Hy]; reflexivity.
  - destruct (Hz (rectQ 0 0 0 0) demo_target 50 50)%Q as (Hs & _ & Hx & _);
      try reflexivity.
    split; [exact Hs|exact Hx].
Defined.

(** ** Scenarios of the tree transformer *)

(** The parent is clamped to 61.5 while the child is placed with the
    delta 70 - 10 = 60 taken before the clamp: 10 - 40 * 0.25 + 60 = 60. *)
Example lowered_parent_clamped_child_not :
  rect_y (tl_coords (demo_transform lowering_strategy lowered_parent))
  ≡ frac 123 2
  ∧ (∃ t, tchild 0 (demo_transform lowering_strategy lowered_parent) = Some t
          ∧ rect_y (tl_coords t) ≡ num 60).
Proof.
  split; [vm_compute; reflexivity|].
  eexists. split; [reflexivity|]. vm_compute. reflexivity.
Qed.

(** [C9_children_inherit_unclamped_delta] at the clamped parent and its
    child. *)
Lemma C9_children_inherit_unclamped_delta_witness :
  let r := resolve demo_source demo_target lowering_strategy in
  let p := place demo_source demo_target (scale r) (anchorX r) (anchorY r)
             lowering_strategy lowered_parent (num 0) (num 0) in
  let t := transformLayer demo_source demo_target (scale r) (anchorX r)
             (anchorY r) lowering_strategy lifted_child
             (currentDeltaX p) (currentDeltaY p) in
  currentDeltaY p = unclampedY p - geomY p
  ∧ tchild 0 (demo_transform lowering_strategy lowered_parent) = Some t
  ∧ rect_y (tl_coords t)
    = clampY demo_target
        (geomY (place demo_source demo_target (scale r) (anchorX r) (anchorY r)
                  lowering_strategy lifted_child
                  (currentDeltaX p) (currentDeltaY p))
         + currentDeltaY p).
Proof.
  intros r p t.
  pose proof (C9_children_inherit_unclamped_delta demo_source demo_target
                (scale r) (anchorX r) (anchorY r) lowering_strategy
                lowered_parent (num 0) (num 0)) as (_ & Ho & _ & _ & Hc).
  split.
  - apply (Ho (mkLayerOverride "parent" (num 0) (num 60) (num 1))).
    reflexivity.
  - destruct (Hc 0%nat lifted_child eq_refl) as (Ht & _ & Hy).
    split; [exact Ht|]. apply Hy. reflexivity.
Defined.

(** An override of 60 on a target of height 50 is not where the
    element ends up, and neither does the flush child end up at its
    geometric position plus the parent's delta: both are clamped to
    61.5. *)
Lemma C5_counterexample :
  let r := resolve demo_source demo_target lowering_strategy in
  let place_of l :=
    place demo_source demo_target (scale r) (anchorX r) (anchorY r)
      lowering_strategy l (num 0) (num 0) in
  let E := demo_transform lowering_strategy lowered_parent in
  find_override lowering_strategy (layer_id lowered_parent)
  = Some (mkLayerOverride "parent" (num 0) (num 60) (num 1))
  ∧ find_override lowering_strategy (layer_id flush_child) = None
  ∧ ¬ (rect_y (tl_coords E) ≡ rect_y demo_target + num 60)
  ∧ ∃ D, tchild 1 E = Some D
         ∧ tl_id D = layer_id flush_child
         ∧ ¬ (rect_y (tl_coords D)
              ≡ geomY (place_of flush_child)
                + currentDeltaY (place_of lowered_parent)).
Proof.
  cbv zeta. split; [reflexivity|]. split; [reflexivity|].
  split; [by vm_compute|].
  eexists. split; [reflexivity|]. split; [reflexivity|]. by vm_compute.
Qed.

(** C5 (amended). An element with an override is placed at the target
    origin plus the override offset, horizontally as is and vertically
    after the clamp; its scale is the base scale times
    [individualScale]; it hands the delta [(aiX - geomX, aiY - geomY)]
    to its children, an element without override hands on the delta it
    received.  So an element reached from an overridden one through
    elements without overrides lands at its geometric X plus the
    induced delta, and at the clamp of its geometric Y plus the induced
    delta.  In the end-to-end scenario with a strategy of scale 0.25 and
    the override [{5, 5, 2}] on the root, the root ends at
    [{15, 15, 50, 100}]. *)
Theorem C5_override_and_delta :
  (∀ sourceRect targetRect scale anchorX anchorY strategy
     (E : SerializableLayer) (o : LayerOverride) (dx dy : number),
     find_override strategy (layer_id E) = Some o →
     let place := place sourceRect targetRect scale anchorX anchorY strategy in
     let t := transformLayer sourceRect targetRect scale anchorX anchorY
                strategy E dx dy in
     let p := place E dx dy in
     rect_x (tl_coords t) = rect_x targetRect + xOffset o
     ∧ rect_y (tl_coords t)
       = clampY targetRect (rect_y targetRect + yOffset o)
     ∧ scaleX (transform t) = scale * individualScale o
     ∧ scaleY (transform t) = scale * individualScale o
     ∧ rect_w (tl_coords t) = rect_w (coords E) * (scale * individualScale o)
     ∧ rect_h (tl_coords t) = rect_h (coords E) * (scale * individualScale o)
     ∧ currentDeltaX p = rect_x targetRect + xOffset o - geomX p
     ∧ currentDeltaY p = rect_y targetRect + yOffset o - geomY p
     ∧ ∀ (path : list nat) (D : SerializableLayer),
         path ≠ [] → descend path E = Some D → plain_path strategy path E →
         ∃ tD, tdescend path t = Some tD
               ∧ tl_id tD = layer_id D
               ∧ rect_x (tl_coords tD)
                 = geomX (place D (num 0) (num 0)) + currentDeltaX p
               ∧ rect_y (tl_coords tD)
                 = clampY targetRect
                     (geomY (place D (num 0) (num 0)) + currentDeltaY p))
  ∧ (∀ sourceRect targetRect scale anchorX anchorY strategy
       (L : SerializableLayer) (dx dy : number),
       find_override strategy (layer_id L) = None →
       let p := place sourceRect targetRect scale anchorX anchorY strategy
                  L dx dy in
       currentDeltaX p = dx ∧ currentDeltaY p = dy)
  ∧ (∀ (anchor : string) (root : SerializableLayer),
       layer_id root = "root" → coords root = demo_source →
       tl_coords (demo_transform (root_override_strategy anchor) root)
       ≡ rectQ 15 15 50 100).
Proof.
  split; [|split].
  - intros sourceRect targetRect scale anchorX anchorY strategy E o dx dy Ho.
    cbv zeta.
    destruct (place_override sourceRect targetRect scale anchorX anchorY
                strategy E o dx dy Ho) as (Hx & Hy & Hdx & Hdy & Hsx & Hsy).
    rewrite transformLayer_coords, transformLayer_transform. simpl.
    rewrite place_clamped, Hx, Hy, Hsx, Hsy, Hdx, Hdy.
    repeat (split; [reflexivity|]).
    intros path D Hne Hd Hp.
    destruct (override_descendant sourceRect targetRect scale anchorX anchorY
                strategy E D path dx dy Hne Hd Hp) as (tD & ? & ? & HX & HY).
    rewrite Hdx in HX. rewrite Hdy in HY. by exists tD.
  - intros sourceRect targetRect scale anchorX anchorY strategy L dx dy Hn.
    by destruct (place_plain sourceRect targetRect scale anchorX anchorY
                   strategy L dx dy Hn) as (_ & _ & ? & ? & _).
  - intros anchor [i n t ch v op c] Hi Hc. simpl in Hi, Hc. subst i c.
    unfold demo_transform. rewrite transformLayer_coords.
    repeat split; by vm_compute.
Qed.

(** [C5_override_and_delta] at the lowered parent, its flush child, and
    a root leaf filling the source rectangle. *)
Lemma C5_override_and_delta_witness :
  (let r := resolve demo_source demo_target lowering_strategy in
   let p := place demo_source demo_target (scale r) (anchorX r) (anchorY r)
              lowering_strategy lowered_parent (num 0) (num 0) in
   rect_y (tl_coords (demo_transform lowering_strategy lowered_parent))
   = clampY demo_target (rect_y demo_target + num 60)
   ∧ ∃ tD, tdescend [1%nat] (demo_transform lowering_strategy lowered_parent)
           = Some tD
           ∧ rect_y (tl_coords tD)
             = clampY demo_target
                 (geomY (place demo_source demo_target (scale r) (anchorX r)
                           (anchorY r) lowering_strategy flush_child
                           (num 0) (num 0))
                  + currentDeltaY p))
  ∧ currentDeltaY
      (place demo_source demo_target (num 1) (num 0) (num 0)
         lowering_strategy flush_child (num 3) (num 4)) = num 4
  ∧ tl_coords
      (demo_transform (root_override_strategy "CENTER")
         (mkLayer "root" "Root" layer None true (num 1) demo_source))
    ≡ rectQ 15 15 50 100.
Proof.
  destruct C5_override_and_delta as (Ho & Hn & Hs).
  split; [|split].
  - cbv zeta.
    destruct (Ho demo_source demo_target
                (scale (resolve demo_source demo_target lowering_strategy))
                (anchorX (resolve demo_source demo_target lowering_strategy))
                (anchorY (resolve demo_source demo_target lowering_strategy))
                lowering_strategy lowered_parent
                (mkLayerOverride "parent" (num 0) (num 60) (num 1))
                (num 0) (num 0) eq_refl)
      as (_ & Hy & _ & _ & _ & _ & _ & Hdy & Hd).
    split; [exact Hy|].
    destruct (Hd [1%nat] flush_child) as (tD & Ht & _ & _ & HY).
    + discriminate.
    + reflexivity.
    + simpl. split; [reflexivity|exact I].
    + exists tD. split; [exact Ht|]. rewrite HY, Hdy. reflexivity.
  - apply (Hn demo_source demo_target (num 1) (num 0) (num 0)
             lowering_strategy flush_child (num 3) (num 4)).
    reflexivity.
  - apply Hs; reflexivity.
Defined.

(** ** Override lookup *)

Lemma place_ext (sourceRect targetRect : Rect) (scale anchorX anchorY : number)
    (s s' : option LayoutStrategy) (l : SerializableLayer) (dx dy : number) :
  find_override s (layer_id l) = find_override s' (layer_id l) →
  place sourceRect targetRect scale anchorX anchorY s l dx dy
  = place sourceRect targetRect scale anchorX anchorY s' l dx dy.
Proof. intros H. unfold place. by rewrite H. Qed.

Lemma transformLayer_ext (sourceRect targetRect : Rect)
    (scale anchorX anchorY : number) (s s' : option LayoutStrategy) :
  (∀ id, find_override s id = find_override s' id) →
  ∀ l dx dy,
    transformLayer sourceRect targetRect scale anchorX anchorY s l dx dy
    = transformLayer sourceRect targetRect scale anchorX anchorY s' l dx dy.
Proof.
  intros Hext l.
  induction l as [l IH] using SerializableLayer_tree_ind. intros dx dy.
  pose proof (place_ext sourceRect targetRect scale anchorX anchorY s s' l
                dx dy (Hext _)) as Hp.
  destruct l as [i n t [cs|] v o c]; simpl in *; rewrite Hp; [|done].
  f_equal. f_equal. specialize (IH cs eq_refl).
  apply List.map_ext_Forall. eapply Forall_impl; [exact IH|].
  intros x Hx. apply Hx.
Qed.

Lemma find_others_than (o : LayerOverride) (id : string) (os : list LayerOverride) :
  id ≠ layerId o →
  List.find (λ x, bool_decide (layerId x = id)) (others_than o os)
  = List.find (λ x, bool_decide (layerId x = id)) os.
Proof.
  intros Hne. induction os as [|x os IH]; [done|]. simpl.
  destruct (decide (layerId x = layerId o)) as [E|E].
  - rewrite (bool_decide_eq_true_2 _ E). simpl.
    rewrite bool_decide_eq_false_2 by congruence. done.
  - rewrite (bool_decide_eq_false_2 _ E). simpl.
    by destruct (bool_decide (layerId x = id)).
Qed.

Lemma find_first_match (pre post : list LayerOverride) (o : LayerOverride) :
  Forall (λ x, layerId x ≠ layerId o) pre →
  List.find (λ x, bool_decide (layerId x = layerId o)) (pre ++ o :: post)
  = Some o.
Proof.
  induction 1 as [|x pre Hx _ IH]; simpl.
  - by rewrite bool_decide_eq_true_2.
  - by rewrite bool_decide_eq_false_2.
Qed.

Lemma find_drop_later (pre post : list LayerOverride) (o : LayerOverride)
    (id : string) :
  List.find (λ x, bool_decide (layerId x = id)) (pre ++ o :: post)
  = List.find (λ x, bool_decide (layerId x = id))
      (pre ++ o :: others_than o post).
Proof.
  induction pre as [|x pre IH]; simpl.
  - destruct (decide (layerId o = id)) as [E|E].
    + by rewrite !(bool_decide_eq_true_2 _ E).
    + rewrite !(bool_decide_eq_false_2 _ E).
      symmetry. apply find_others_than. congruence.
  - by destruct (bool_decide (layerId x = id)).
Qed.

(** C10. When several overrides carry the same [layerId], the first
    one in list order is the one applied: every element of the output
    with that identifier, at any depth, sits at the target origin plus
    the offsets of the first override (vertically after the clamp), is
    scaled by the base scale times the first override's
    [individualScale], and hands the delta induced by the first override
    to its children; removing the later overrides for the identifier
    leaves the output unchanged. *)
Theorem C10_first_override_wins
    (sourceRect targetRect : Rect) (scale anchorX anchorY : number)
    (s : LayoutStrategy) (pre post : list LayerOverride) (o : LayerOverride) :
  overrides s = Some (pre ++ o :: post) →
  Forall (λ x, layerId x ≠ layerId o) pre →
  (∀ (l e : SerializableLayer) (dx dy : number) (path : list nat),
     descend path l = Some e → layer_id e = layerId o →
     ∃ t, tdescend path
            (transformLayer sourceRect targetRect scale anchorX anchorY
               (Some s) l dx dy) = Some t
          ∧ tl_id t = layerId o
          ∧ rect_x (tl_coords t) = rect_x targetRect + xOffset o
          ∧ rect_y (tl_coords t)
            = clampY targetRect (rect_y targetRect + yOffset o)
          ∧ rect_w (tl_coords t)
            = rect_w (coords e) * (scale * individualScale o)
          ∧ rect_h (tl_coords t)
            = rect_h (coords e) * (scale * individualScale o)
          ∧ transform t
            = mkTransform (scale * individualScale o)
                (scale * individualScale o)
                (rect_x targetRect + xOffset o)
                (clampY targetRect (rect_y targetRect + yOffset o))
          ∧ ∀ i c, child i e = Some c →
              tchild i t
              = Some (transformLayer sourceRect targetRect scale anchorX
                        anchorY (Some s) c
                        (rect_x targetRect + xOffset o
                         - (anchorX
                            + (rect_x (coords e) - rect_x sourceRect)
                              / rect_w sourceRect
                              * (rect_w sourceRect * scale)))
                        (rect_y targetRect + yOffset o
                         - (anchorY
                            + (rect_y (coords e) - rect_y sourceRect)
                              / rect_h sourceRect
                              * (rect_h sourceRect * scale)))))
  ∧ (∀ (ls : list SerializableLayer) (dx dy : number),
       transformLayers sourceRect targetRect scale anchorX anchorY
         (Some s) ls dx dy
       = transformLayers sourceRect targetRect scale anchorX anchorY
           (Some (with_overrides s (pre ++ o :: others_than o post))) ls dx dy).
Proof.
  intros Hs Hpre.
  assert (find_override (Some s) (layerId o) = Some o) as Hfind.
  { simpl. rewrite Hs. by apply find_first_match. }
  split.
  - intros l e dx dy path Hd Hid.
    destruct (tdescend_transformLayer sourceRect targetRect scale anchorX
                anchorY (Some s) path l e dx dy Hd) as (dx' & dy' & Ht).
    eexists. split; [exact Ht|].
    rewrite <- Hid in Hfind.
    destruct (place_override sourceRect targetRect scale anchorX anchorY
                (Some s) e o dx' dy' Hfind) as (Hx & Hy & Hdx & Hdy & Hsx & Hsy).
    destruct (place_geom sourceRect targetRect scale anchorX anchorY
                (Some s) e dx' dy') as [Hgx Hgy].
    split; [by rewrite transformLayer_id|].
    rewrite transformLayer_coords, transformLayer_transform. cbn [rect_x rect_y rect_w rect_h].
    rewrite place_clamped, Hx, Hy, Hsx, Hsy.
    do 5 (split; [reflexivity|]).
    intros i c Hc. rewrite tchild_transformLayer, Hc. simpl.
    by rewrite Hdx, Hdy, Hgx, Hgy.
  - intros ls dx dy. unfold transformLayers.
    apply List.map_ext. intros l. apply transformLayer_ext.
    intros id. simpl. rewrite Hs. apply find_drop_later.
Qed.

(** [C10_first_override_wins] for an element inside a group, with the
    overrides [{5, 5, 2}] and then [{100, 100, 3}] for its identifier:
    it ends at [{15, 15, 50, 100}], as the first one asks. *)
Lemma C10_first_override_wins_witness :
  (∃ t, tdescend [1%nat]
          (transformLayer demo_source demo_target (frac 1 4) (num 35) (num 10)
             (Some duplicate_strategy) frame (num 0) (num 0)) = Some t
        ∧ tl_id t = "root"
        ∧ rect_x (tl_coords t) = num 10 + num 5
        ∧ rect_y (tl_coords t) = clampY demo_target (num 10 + num 5)
        ∧ rect_w (tl_coords t) = num 100 * (frac 1 4 * num 2)
        ∧ tl_coords t ≡ rectQ 15 15 50 100)
  ∧ transformLayers demo_source demo_target (frac 1 4) (num 35) (num 10)
      (Some duplicate_strategy) [frame] (num 0) (num 0)
    = transformLayers demo_source demo_target (frac 1 4) (num 35) (num 10)
        (Some (with_overrides duplicate_strategy [root_override])) [frame]
        (num 0) (num 0).
Proof.
  destruct (C10_first_override_wins demo_source demo_target (frac 1 4)
              (num 35) (num 10) duplicate_strategy [] [late_override]
              root_override) as (Hel & Hdrop).
  - reflexivity.
  - constructor.
  - split; [|apply Hdrop].
    destruct (Hel frame root_leaf (num 0) (num 0) [1%nat] eq_refl eq_refl)
      as (t & Ht & Hid & Hx & Hy & Hw & _).
    exists t. split; [exact Ht|]. split; [exact Hid|]. split; [exact Hx|].
    split; [exact Hy|]. split; [exact Hw|].
    simpl in Ht. injection Ht as <-. repeat split; by vm_compute.
Defined.

(** ** The vertical clamp over whole trees *)


(** With a target of negative height the bounds are out of order: the
    clamp returns the lower one, 11.5, which is above the upper one. *)
Example negative_height_inverts_the_bounds :
  let upside_down := rectQ 10 10 50 (-50) in
  minY upside_down ≡ frac 23 2
  ∧ maxY upside_down ≡ frac (-83) 2
  ∧ clampY upside_down (num 0) ≡ frac 23 2
  ∧ within (minY upside_down) (maxY upside_down) (clampY upside_down (num 0))
    = false.
Proof. repeat split; by vm_compute. Qed.



(** ** Procedural integrity validator *)

(** The handle [`input-${container.name}`] of a slot leads back to the
    slot's name. *)
Lemma edge_slot_input (id name : string) (edge : Edge) :
  edge_target edge = id →
  edge_targetHandle edge = Some ("input-" +:+ name) →
  edge_slot id edge = Some name.
Proof.
  intros Ht Hh. unfold edge_slot.
  by rewrite (bool_decide_eq_true_2 _ Ht), Hh.
Qed.

Lemma visit_edge_wiring (id : string)
    (payloadRegistry : gmap string (gmap string TransformedPayload))
    (acc : Validation) (edge : Edge) :
  visit_edge id payloadRegistry acc edge
  = match wiring id payloadRegistry edge with
    | Some w => record_wiring acc w
    | None => acc
    end.
Proof.
  unfold visit_edge, wiring, record_wiring, matched.
  destruct (edge_slot id edge) as [s|]; [|done].
  destruct (edge_payload payloadRegistry edge) as [p|]; [|done]. simpl.
  by destruct (decide (targetContainer p = s)) as [E|E];
    [rewrite (bool_decide_eq_true_2 _ E)|rewrite (bool_decide_eq_false_2 _ E)].
Qed.

Lemma foldl_visit_edge (id : string)
    (payloadRegistry : gmap string (gmap string TransformedPayload))
    (edges : list Edge) :
  ∀ acc, foldl (visit_edge id payloadRegistry) acc edges
         = foldl record_wiring acc (wirings edges id payloadRegistry).
Proof.
  induction edges as [|e edges IH]; intros acc; [done|].
  simpl. rewrite IH, visit_edge_wiring. unfold wirings. simpl.
  by destruct (wiring id payloadRegistry e).
Qed.

Lemma validate_wirings (edges : list Edge) (id : string)
    (payloadRegistry : gmap string (gmap string TransformedPayload)) :
  validate edges id payloadRegistry
  = foldl record_wiring (mkValidation ∅ []) (wirings edges id payloadRegistry).
Proof. apply foldl_visit_edge. Qed.

Lemma record_wirings_errors (ws : list (string * TransformedPayload)) :
  ∀ acc,
    validationErrors (foldl record_wiring acc ws)
    = validationErrors acc
      ++ ((λ w, violation_message (targetContainer w.2) w.1)
          <$> filter (λ w, ¬ matched w) ws).
Proof.
  induction ws as [|w ws IH]; intros acc; simpl.
  - by rewrite app_nil_r.
  - rewrite IH. unfold record_wiring.
    destruct (decide (matched w)) as [E|E]; simpl.
    + rewrite filter_cons_False by tauto. done.
    + rewrite filter_cons_True by done. simpl. by rewrite <- app_assoc.
Qed.

Lemma record_wirings_connections (ws : list (string * TransformedPayload)) :
  ∀ acc,
    slotConnections (foldl record_wiring acc ws)
    = foldl (λ m w, <[w.1 := w.2]> m) (slotConnections acc) (filter matched ws).
Proof.
  induction ws as [|w ws IH]; intros acc; simpl; [done|].
  rewrite IH. unfold record_wiring.
  destruct (decide (matched w)) as [E|E]; simpl.
  - by rewrite filter_cons_True.
  - by rewrite filter_cons_False.
Qed.

Lemma size_foldl_insert (ws : list (string * TransformedPayload)) :
  ∀ m : gmap string TransformedPayload,
    NoDup ws.*1 → (∀ w, w ∈ ws → m !! w.1 = None) →
    size (foldl (λ m w, <[w.1 := w.2]> m) m ws) = (size m + length ws)%nat.
Proof.
  induction ws as [|w ws IH]; intros m Hnd Hfresh; simpl; [lia|].
  apply NoDup_cons in Hnd as [Hw Hnd].
  rewrite IH; [| done |].
  - rewrite map_size_insert_None by (apply Hfresh; left). lia.
  - intros w' Hw'. rewrite lookup_insert_ne.
    + apply Hfresh. by right.
    + intros E. apply Hw. rewrite E. by apply list_elem_of_fmap_2.
Qed.

Lemma filter_all {A} (P : A → Prop) `{∀ x, Decision (P x)} (l : list A) :
  Forall P l → filter P l = l.
Proof.
  induction 1 as [|x l Hx _ IH]; [done|].
  by rewrite filter_cons_True, IH.
Qed.

Lemma filter_none {A} (P : A → Prop) `{∀ x, Decision (P x)} (l : list A) :
  Forall (λ x, ¬ P x) l → filter P l = [].
Proof.
  induction 1 as [|x l Hx _ IH]; [done|].
  by rewrite filter_cons_False, IH.
Qed.

Lemma lookup_foldl_insert (ws : list (string * TransformedPayload)) :
  ∀ (m : gmap string TransformedPayload) s q,
    foldl (λ m w, <[w.1 := w.2]> m) m ws !! s = Some q →
    (s, q) ∈ ws ∨ m !! s = Some q.
Proof.
  induction ws as [|[s' p'] ws IH]; intros m s q H; simpl in *; [by right|].
  apply IH in H as [H|H].
  - left. by right.
  - destruct (decide (s' = s)) as [->|Hne].
    + rewrite lookup_insert_eq in H. simplify_eq. left. by left.
    + rewrite lookup_insert_ne in H by done. by right.
Qed.

(** C1 (failing input).  The template has the slots [LOGO] and [BG];
    one payload is wired into [input-BG] and one, declaring the target
    [XYZ], into a handle [input-XYZ] that is no slot of the template.
    The validator takes the slot name from the handle and the status
    counts the entries of [slotConnections]: two entries for two slots
    and no violation, so the assembly is export-ready although the slot
    [LOGO] is empty and only one slot of the template is filled; the
    document handed to [writePsdFile] has the group [BG] only. *)
Theorem C1_ready_with_an_empty_slot :
  let a := assembly_status stale_edges "export-1" stale_templates
             stale_payloads in
  let v := validate stale_edges "export-1" stale_payloads in
  templateMetadata stale_edges "export-1" stale_templates = Some two_slots
  ∧ container_name <$> containers two_slots = ["LOGO"; "BG"]
  ∧ wirings stale_edges "export-1" stale_payloads
    = [("XYZ", payload_for "XYZ"); ("BG", payload_for "BG")]
  ∧ totalSlots a = 2%nat
  ∧ filledSlots a = 2%nat
  ∧ violations a = []
  ∧ isFullyAssembled a = true
  ∧ slotConnections v !! "LOGO" = None
  ∧ slotConnections v !! "XYZ" = Some (payload_for "XYZ")
  ∧ length (filter (filled (slotConnections v)) (containers two_slots)) = 1%nat
  ∧ ∀ writePsdFile, ∃ bg,
      handleExport demo_finder writePsdFile stale_edges "export-1"
        stale_templates stale_payloads bg_psds
      = writeOutcome writePsdFile (mkPsd (num 1024) (num 768) [bg])
      ∧ psd_name bg = Some "BG".
Proof.
  cbv zeta. do 10 (split; [vm_compute; reflexivity|]).
  intros writePsdFile. eexists. split; [vm_compute; reflexivity|]. reflexivity.
Qed.

(** With every one of the [N] slots of the template wired exactly once,
    [N-1] of the wirings matching and one not, [N-1] slots are filled,
    the one violation names the payload's target and the slot it is
    plugged into, and the assembly is not export-ready. *)
Theorem one_miswired_slot_blocks_the_export
    (edges : list Edge) (id : string)
    (templateRegistry : gmap string TemplateMetadata)
    (payloadRegistry : gmap string (gmap string TransformedPayload))
    (t : TemplateMetadata) (ws1 ws2 : list (string * TransformedPayload))
    (s : string) (p : TransformedPayload) :
  templateMetadata edges id templateRegistry = Some t →
  NoDup (container_name <$> containers t) →
  wirings edges id payloadRegistry = ws1 ++ (s, p) :: ws2 →
  (ws1 ++ (s, p) :: ws2).*1 ≡ₚ container_name <$> containers t →
  Forall matched (ws1 ++ ws2) →
  targetContainer p ≠ s →
  let a := assembly_status edges id templateRegistry payloadRegistry in
  let N := length (containers t) in
  totalSlots a = N
  ∧ filledSlots a = (N - 1)%nat
  ∧ violations a = [violation_message (targetContainer p) s]
  ∧ length (violations a) = 1%nat
  ∧ isFullyAssembled a = false.
Proof.
  intros Ht Hnd Hws Hperm Hm Hp a N.
  subst a N. unfold assembly_status.
  cbn [isFullyAssembled filledSlots totalSlots violations].
  rewrite Ht, validate_wirings, record_wirings_errors,
    record_wirings_connections, Hws. simpl.
  apply Forall_app in Hm as [Hm1 Hm2].
  assert (¬ matched (s, p)) as Hsp by (unfold matched; done).
  rewrite !filter_app, !filter_cons_False, !filter_cons_True by tauto.
  rewrite !(filter_all matched), !(filter_none (λ w, ¬ matched w)); try done.
  2,3: eapply Forall_impl; [eassumption|]; tauto.
  simpl.
  assert (length (containers t) = S (length (ws1 ++ ws2))) as HN.
  { apply Permutation_length in Hperm.
    rewrite !length_fmap, !length_app in *. simpl in Hperm. lia. }
  assert (NoDup (ws1 ++ ws2).*1) as Hnd'.
  { rewrite <- Hperm in Hnd. rewrite fmap_app in *. simpl in Hnd.
    apply NoDup_app in Hnd as (H1 & H2 & H3).
    apply NoDup_cons in H3 as [_ H3].
    apply NoDup_app. split; [done|]. split; [|done].
    intros x Hx Hx'. apply (H2 x Hx). by right. }
  rewrite size_foldl_insert by done.
  rewrite map_size_empty, HN. simpl.
  split; [done|]. split; [lia|]. split; [done|]. split; [done|].
  rewrite (proj2 (Nat.eqb_neq _ _)) by lia. by rewrite andb_false_r.
Qed.

(** [one_miswired_slot_blocks_the_export] on a template of three slots
    whose last slot is miswired. *)
Lemma one_miswired_slot_blocks_the_export_witness :
  let a := assembly_status demo_edges "export-1" demo_templates demo_payloads in
  totalSlots a = 3%nat
  ∧ filledSlots a = 2%nat
  ∧ violations a
    = ["PROCEDURAL VIOLATION: Payload targeting 'BG' is miswired to slot 'LOGO'."]
  ∧ length (violations a) = 1%nat
  ∧ isFullyAssembled a = false.
Proof.
  apply (one_miswired_slot_blocks_the_export demo_edges "export-1"
           demo_templates demo_payloads three_slots
           [("BG", payload_for "BG"); ("SYMBOLS", payload_for "SYMBOLS")] []
           "LOGO" (payload_for "BG")).
  - vm_compute. reflexivity.
  - apply (bool_decide_unpack _). vm_compute. exact I.
  - vm_compute. reflexivity.
  - reflexivity.
  - repeat constructor.
  - discriminate.
Defined.

(** ** Hierarchy reconstruction *)

(** The identifier ["7"] is not found in the original document; the
    layer is left out and the document goes to [writePsdFile] all the
    same, which writes it. *)
Lemma C2_counterexample :
  demo_finder demo_psd "7" = None
  ∧ length (reconstructHierarchy demo_finder [placed "0"; placed "7"] demo_psd)
    = 1%nat
  ∧ ∃ content bg,
      (∀ writePsdFile,
         handleExport demo_finder writePsdFile bg_edges "export-1"
           bg_templates bg_payloads bg_psds
         = writeOutcome writePsdFile (mkPsd (num 1024) (num 768) [bg]))
      ∧ handleExport demo_finder working_writer bg_edges "export-1"
          bg_templates bg_payloads bg_psds
        = Written (mkPsd (num 1024) (num 768) [bg])
      ∧ psd_name bg = Some "BG"
      ∧ psd_children bg = Some [content]
      ∧ psd_name content = Some "Dot".
Proof.
  split; [reflexivity|]. split; [reflexivity|].
  do 2 eexists. split; [intros w; vm_compute; reflexivity|].
  split; [vm_compute; reflexivity|]. repeat split.
Qed.

Section ExportFacts.
Variable findLayerByPath : Psd → string → option Layer.

Lemma reconstructLayer_unfold (sourcePsd : Psd) (metaLayer : TransformedLayer) :
  reconstructLayer findLayerByPath sourcePsd metaLayer
  = match findLayerByPath sourcePsd (tl_id metaLayer) with
    | Some originalLayer =>
        let c := tl_coords metaLayer in
        let recurse :=
          match tl_type metaLayer, tl_children metaLayer with
          | group, Some cs => Some (reconstructHierarchy findLayerByPath cs sourcePsd)
          | _, _ => None
          end in
        Some {| psd_name := psd_name originalLayer;
                top := Some (rect_y c);
                left := Some (rect_x c);
                bottom := Some (rect_y c + rect_h c);
                right := Some (rect_x c + rect_w c);
                hidden := Some (negb (tl_isVisible metaLayer));
                psd_opacity := Some (tl_opacity metaLayer * num 255);
                opened := match recurse with
                          | Some _ => Some true
                          | None => opened originalLayer
                          end;
                psd_children := recurse;
                preserved := preserved originalLayer |}
    | None => None
    end.
Proof. by destruct metaLayer as [i n [] [cs|] v o c t]. Qed.

Lemma reconstructHierarchy_app (l1 l2 : list TransformedLayer) (sourcePsd : Psd) :
  reconstructHierarchy findLayerByPath (l1 ++ l2) sourcePsd
  = reconstructHierarchy findLayerByPath l1 sourcePsd
    ++ reconstructHierarchy findLayerByPath l2 sourcePsd.
Proof. unfold reconstructHierarchy. apply omap_app. Qed.

Lemma finalChildren_total (psdRegistry : gmap string Psd)
    (slotConnections : gmap string TransformedPayload)
    (containers : list ContainerDefinition) :
  (∀ s p, slotConnections !! s = Some p →
          is_Some (psdRegistry !! sourceNodeId p)) →
  ∃ groups,
    finalChildren findLayerByPath psdRegistry slotConnections containers
    = inl groups.
Proof.
  intros Hreg. induction containers as [|c cs [groups IH]]; simpl; [by eexists|].
  destruct (slotConnections !! container_name c) as [p|] eqn:Ep.
  - destruct (Hreg _ _ Ep) as [psd ->]. rewrite IH. by eexists.
  - by eexists.
Qed.

(** C2 (amended). Every transformed element is looked up in the
    original document by its identifier.  When the lookup succeeds the
    element is rebuilt from the original layer with the transformed
    bounds, visibility and opacity, and with its children rebuilt if it is
    a group; when the lookup fails the element and everything below it
    are left out, its siblings are rebuilt as usual, and no error is
    raised: a fully assembled export whose source documents are
    registered always builds its document and hands it to
    [writePsdFile], so that it is written whenever the writer succeeds. *)
Theorem C2_missing_layers_skipped :
  (∀ (sourcePsd : Psd) (l1 l2 : list TransformedLayer) (m : TransformedLayer),
     findLayerByPath sourcePsd (tl_id m) = None →
     reconstructHierarchy findLayerByPath (l1 ++ m :: l2) sourcePsd
     = reconstructHierarchy findLayerByPath l1 sourcePsd
       ++ reconstructHierarchy findLayerByPath l2 sourcePsd)
  ∧ (∀ (sourcePsd : Psd) (l1 l2 : list TransformedLayer) (m : TransformedLayer)
       (originalLayer : Layer),
       findLayerByPath sourcePsd (tl_id m) = Some originalLayer →
       ∃ newLayer,
         reconstructHierarchy findLayerByPath (l1 ++ m :: l2) sourcePsd
         = reconstructHierarchy findLayerByPath l1 sourcePsd
           ++ newLayer :: reconstructHierarchy findLayerByPath l2 sourcePsd
         ∧ psd_name newLayer = psd_name originalLayer
         ∧ preserved newLayer = preserved originalLayer
         ∧ top newLayer = Some (rect_y (tl_coords m))
         ∧ left newLayer = Some (rect_x (tl_coords m))
         ∧ bottom newLayer
           = Some (rect_y (tl_coords m) + rect_h (tl_coords m))
         ∧ right newLayer
           = Some (rect_x (tl_coords m) + rect_w (tl_coords m))
         ∧ hidden newLayer = Some (negb (tl_isVisible m))
         ∧ psd_opacity newLayer = Some (tl_opacity m * num 255)
         ∧ psd_children newLayer
           = match tl_type m, tl_children m with
             | group, Some cs =>
                 Some (reconstructHierarchy findLayerByPath cs sourcePsd)
             | _, _ => None
             end)
  ∧ (∀ (writePsdFile : Psd → Settled) (edges : list Edge) (id : string)
       (templateRegistry : gmap string TemplateMetadata)
       (payloadRegistry : gmap string (gmap string TransformedPayload))
       (psdRegistry : gmap string Psd),
       isFullyAssembled
         (assembly_status edges id templateRegistry payloadRegistry) = true →
       (∀ s p,
          slotConnections (validate edges id payloadRegistry) !! s = Some p →
          is_Some (psdRegistry !! sourceNodeId p)) →
       ∃ newPsd,
         handleExport findLayerByPath writePsdFile edges id templateRegistry
           payloadRegistry psdRegistry
         = writeOutcome writePsdFile newPsd
         ∧ (writePsdFile newPsd = Fulfilled →
            handleExport findLayerByPath writePsdFile edges id
              templateRegistry payloadRegistry psdRegistry
            = Written newPsd)).
Proof.
  split; [|split].
  - intros sourcePsd l1 l2 m Hm.
    rewrite reconstructHierarchy_app. f_equal.
    unfold reconstructHierarchy. simpl.
    by rewrite reconstructLayer_unfold, Hm.
  - intros sourcePsd l1 l2 m originalLayer Hm.
    eexists. split.
    + rewrite reconstructHierarchy_app. f_equal.
      unfold reconstructHierarchy at 1. simpl.
      rewrite reconstructLayer_unfold, Hm. cbv zeta. reflexivity.
    + simpl. repeat split.
  - intros writePsdFile edges id treg preg psdreg Hfull Hreg.
    unfold handleExport. rewrite Hfull.
    destruct (templateMetadata edges id treg) as [t|] eqn:Et.
    + destruct (finalChildren_total psdreg _ (containers t) Hreg)
        as [groups ->].
      eexists. split; [reflexivity|]. unfold writeOutcome. by intros ->.
    + unfold assembly_status in Hfull. rewrite Et in Hfull. done.
Qed.

End ExportFacts.

(** [C2_missing_layers_skipped] on the document that lacks the
    identifier ["7"]. *)
Lemma C2_missing_layers_skipped_witness :
  reconstructHierarchy demo_finder ([placed "0"] ++ placed "7" :: []) demo_psd
  = reconstructHierarchy demo_finder [placed "0"] demo_psd
    ++ reconstructHierarchy demo_finder [] demo_psd
  ∧ (∃ newLayer,
       reconstructHierarchy demo_finder ([] ++ placed "0" :: [placed "7"])
         demo_psd
       = reconstructHierarchy demo_finder [] demo_psd
         ++ newLayer :: reconstructHierarchy demo_finder [placed "7"] demo_psd
       ∧ preserved newLayer = [("blendMode", "normal")])
  ∧ ∃ newPsd,
      handleExport demo_finder working_writer bg_edges "export-1"
        bg_templates bg_payloads bg_psds
      = Written newPsd.
Proof.
  destruct (C2_missing_layers_skipped demo_finder) as (Hskip & Hkeep & Hwrite).
  split; [|split].
  - apply Hskip. reflexivity.
  - destruct (Hkeep demo_psd [] [placed "7"] (placed "0") original_dot eq_refl)
      as (newLayer & Hl & _ & Hp & _).
    exists newLayer. split; [exact Hl|exact Hp].
  - assert (∀ s p,
              slotConnections (validate bg_edges "export-1" bg_payloads) !! s
              = Some p →
              is_Some (bg_psds !! sourceNodeId p)) as Hreg.
    { intros s p.
      assert (slotConnections (validate bg_edges "export-1" bg_payloads)
              = {[ "BG" := mkTransformedPayload success "load-1" "SOURCE" "BG"
                             [placed "0"; placed "7"] (num 1)
                             (mkMetrics (num 100, num 200) (num 50, num 50)) ]})
        as -> by (vm_compute; reflexivity).
      intros [_ <-]%lookup_singleton_Some. by eexists. }
    destruct (Hwrite working_writer bg_edges "export-1" bg_templates
                bg_payloads bg_psds eq_refl Hreg) as (newPsd & _ & Hw).
    exists newPsd. apply Hw. reflexivity.
Defined.

(** * Further properties of the remapper *)

(** ** Uniform fit *)

Lemma Qmin_fit (a b c d : Q) :
  (0 < a)%Q → (0 < b)%Q → (0 <= c)%Q → (0 <= d)%Q →
  let s := Qmin (c / a) (d / b) in
  (0 <= s)%Q ∧ (a * s <= c)%Q ∧ (b * s <= d)%Q
  ∧ ((a * s == c)%Q ∨ (b * s == d)%Q).
Proof.
  intros Ha Hb Hc Hd s.
  assert (a * (c / a) == c)%Q as Eca by (field; lra).
  assert (b * (d / b) == d)%Q as Edb by (field; lra).
  assert (0 <= c / a)%Q as Hca.
  { apply Qle_shift_div_l; [done|]. lra. }
  assert (0 <= d / b)%Q as Hdb.
  { apply Qle_shift_div_l; [done|]. lra. }
  destruct (Q.min_spec (c / a) (d / b)) as [[Hlt E]|[Hle E]]; subst s;
    rewrite E.
  - repeat split; [done|lra| |by left].
    rewrite <- Edb. apply Qmult_le_l; [done|]. lra.
  - repeat split; [done| |lra|by right].
    rewrite <- Eca. apply Qmult_le_l; [done|]. lra.
Qed.

(** Without strategy, a source of positive size is scaled so that it
    lies inside a target of non-negative size, touching it on at least
    one axis: the scale is not negative, the scaled source starts at or
    after the target origin and ends at or before the target's far edge
    on both axes, and its width or its height equals the target's. *)
Theorem default_fit_inside_target (sx sy sw sh tx ty tw th : Q) :
  (0 < sw)%Q → (0 < sh)%Q → (0 <= tw)%Q → (0 <= th)%Q →
  let r := resolve (rectQ sx sy sw sh) (rectQ tx ty tw th) None in
  ∃ s ax ay : Q,
    scale r ≡ Fin s ∧ anchorX r ≡ Fin ax ∧ anchorY r ≡ Fin ay
    ∧ (0 <= s)%Q
    ∧ (tx <= ax)%Q ∧ (ax + sw * s <= tx + tw)%Q
    ∧ (ty <= ay)%Q ∧ (ay + sh * s <= ty + th)%Q
    ∧ ((sw * s == tw)%Q ∨ (sh * s == th)%Q).
Proof.
  intros Hsw Hsh Htw Hth r.
  destruct (resolve_default_Q sx sy sw sh tx ty tw th Hsw Hsh) as (Hs & Hx & Hy).
  destruct (Qmin_fit sw sh tw th Hsw Hsh Htw Hth) as (H0 & Hw & Hh & Htouch).
  eexists _, _, _. split; [exact Hs|]. split; [exact Hx|]. split; [exact Hy|].
  set (s := Qmin (tw / sw) (th / sh)) in *.
  split; [done|].
  assert ((tw - sw * s) / 2 == (tw - sw * s) * (1 # 2))%Q as -> by (field).
  assert ((th - sh * s) / 2 == (th - sh * s) * (1 # 2))%Q as -> by (field).
  repeat split; try lra.
Qed.

Lemma default_fit_inside_target_witness :
  ∃ s ax ay : Q,
    scale (resolve demo_source demo_target None) ≡ Fin s
    ∧ anchorX (resolve demo_source demo_target None) ≡ Fin ax
    ∧ anchorY (resolve demo_source demo_target None) ≡ Fin ay
    ∧ (0 <= s)%Q
    ∧ (10 <= ax)%Q ∧ (ax + 100 * s <= 10 + 50)%Q
    ∧ (10 <= ay)%Q ∧ (ay + 200 * s <= 10 + 50)%Q
    ∧ ((100 * s == 50)%Q ∨ (200 * s == 50)%Q).
Proof.
  apply (default_fit_inside_target 0 0 100 200 10 10 50 50); by vm_compute.
Defined.

(** ** Elements and their images *)

Lemma transformLayer_fields (sourceRect targetRect : Rect)
    (scale anchorX anchorY : number) (strategy : option LayoutStrategy)
    (l : SerializableLayer) (dx dy : number) :
  let t := transformLayer sourceRect targetRect scale anchorX anchorY strategy
             l dx dy in
  tl_id t = layer_id l ∧ tl_name t = layer_name l ∧ tl_type t = layer_type l
  ∧ tl_isVisible t = isVisible l ∧ tl_opacity t = opacity l.
Proof. by destruct l as [i n t [cs|] v o c]. Qed.

(** Every element of the output sits on the path of the source element
    it was computed from. *)
Lemma tdescend_image (sourceRect targetRect : Rect)
    (scale anchorX anchorY : number) (strategy : option LayoutStrategy)
    (p : list nat) :
  ∀ (l : SerializableLayer) (dx dy : number) (tD : TransformedLayer),
    tdescend p (transformLayer sourceRect targetRect scale anchorX anchorY
                  strategy l dx dy) = Some tD →
    ∃ D dx' dy',
      descend p l = Some D
      ∧ tD = transformLayer sourceRect targetRect scale anchorX anchorY
               strategy D dx' dy'.
Proof.
  induction p as [|i p IH]; intros l dx dy tD H; simpl in *.
  - simplify_eq. by eexists _, _, _.
  - rewrite tchild_transformLayer in H.
    destruct (child i l) as [c|]; [|done]. simpl in H.
    by apply IH in H.
Qed.

(** Whatever the strategy and the deltas, the element found at a path
    of the output is the image of the source element at that path: it
    keeps identifier, name, kind, visibility and opacity, it is scaled
    by the same factor on both axes (the base scale, times
    [individualScale] if it has an override), and its size is the source
    size times that factor. *)
Theorem output_element_is_scaled_source (sourceRect targetRect : Rect)
    (scale anchorX anchorY : number) (strategy : option LayoutStrategy)
    (l : SerializableLayer) (dx dy : number) (p : list nat)
    (tD : TransformedLayer) :
  tdescend p (transformLayer sourceRect targetRect scale anchorX anchorY
                strategy l dx dy) = Some tD →
  ∃ D, descend p l = Some D
       ∧ tl_id tD = layer_id D ∧ tl_name tD = layer_name D
       ∧ tl_type tD = layer_type D
       ∧ tl_isVisible tD = isVisible D ∧ tl_opacity tD = opacity D
       ∧ scaleX (transform tD) = scaleY (transform tD)
       ∧ scaleX (transform tD)
         = match find_override strategy (layer_id D) with
           | Some o => scale * individualScale o
           | None => scale
           end
       ∧ rect_w (tl_coords tD) = rect_w (coords D) * scaleX (transform tD)
       ∧ rect_h (tl_coords tD) = rect_h (coords D) * scaleY (transform tD).
Proof.
  intros H. apply tdescend_image in H as (D & dx' & dy' & HD & ->).
  exists D. split; [done|].
  destruct (transformLayer_fields sourceRect targetRect scale anchorX anchorY
              strategy D dx' dy') as (-> & -> & -> & -> & ->).
  do 5 (split; [done|]).
  rewrite transformLayer_coords, transformLayer_transform. simpl.
  unfold place. by destruct (find_override strategy (layer_id D)).
Qed.

Lemma output_element_is_scaled_source_witness :
  let P := place demo_source demo_target (frac 1 4) (num 0) (num 0)
             lowering_strategy lowered_parent (num 0) (num 0) in
  let tD := transformLayer demo_source demo_target (frac 1 4) (num 0) (num 0)
              lowering_strategy lifted_child
              (currentDeltaX P) (currentDeltaY P) in
  tl_name tD = "Child"
  ∧ scaleX (transform tD) = frac 1 4
  ∧ rect_w (tl_coords tD) = num 10 * scaleX (transform tD).
Proof.
  intros P tD.
  destruct (output_element_is_scaled_source demo_source demo_target (frac 1 4)
              (num 0) (num 0) lowering_strategy lowered_parent (num 0) (num 0)
              [0%nat] tD)
    as (D & HD & _ & Hn & _ & _ & _ & _ & Hs & Hw & _).
  - reflexivity.
  - simpl in HD. injection HD as <-.
    split; [exact Hn|]. split; [exact Hs|exact Hw].
Defined.

(** ** Geometry of the placement *)

(** In exact arithmetic, that is with rational numbers and neither
    rounding nor overflow, the geometric position on finite data with a
    source of non-zero size is the anchor plus the scaled offset from the
    source origin, [anchor + (x - sourceRect.x) * scale]; so two
    elements placed with the same delta and without override keep their
    horizontal distance, multiplied by the scale. *)
Theorem geometric_placement_is_affine (sx sy sw sh sc ax ay : Q)
    (targetRect : Rect) (strategy : option LayoutStrategy) :
  ¬ (sw == 0)%Q → ¬ (sh == 0)%Q →
  let place := place (rectQ sx sy sw sh) targetRect (Fin sc) (Fin ax) (Fin ay)
                 strategy in
  (∀ (l : SerializableLayer) (x y w h : Q) (dx dy : number),
     coords l = rectQ x y w h →
     geomX (place l dx dy) ≡ Fin (ax + (x - sx) * sc)%Q
     ∧ geomY (place l dx dy) ≡ Fin (ay + (y - sy) * sc)%Q)
  ∧ (∀ (l1 l2 : SerializableLayer) (x1 y1 w1 h1 x2 y2 w2 h2 d : Q)
       (dy : number),
       coords l1 = rectQ x1 y1 w1 h1 → coords l2 = rectQ x2 y2 w2 h2 →
       find_override strategy (layer_id l1) = None →
       find_override strategy (layer_id l2) = None →
       ∃ X1 X2 : Q,
         finalX (place l1 (Fin d) dy) = Fin X1
         ∧ finalX (place l2 (Fin d) dy) = Fin X2
         ∧ (X1 - X2 == sc * (x1 - x2))%Q).
Proof.
  intros Hsw Hsh place0. subst place0. split.
  - intros l x y w h dx dy Hc.
    destruct (place_geom (rectQ sx sy sw sh) targetRect (Fin sc) (Fin ax)
                (Fin ay) strategy l dx dy) as [-> ->].
    rewrite Hc. unfold rectQ. cbn [rect_x rect_y rect_w rect_h]. fin_arith.
    split; apply Fin_equiv; field; done.
  - intros l1 l2 x1 y1 w1 h1 x2 y2 w2 h2 d dy Hc1 Hc2 Hn1 Hn2.
    destruct (place_plain (rectQ sx sy sw sh) targetRect (Fin sc) (Fin ax)
                (Fin ay) strategy l1 (Fin d) dy Hn1) as (-> & _).
    destruct (place_plain (rectQ sx sy sw sh) targetRect (Fin sc) (Fin ax)
                (Fin ay) strategy l2 (Fin d) dy Hn2) as (-> & _).
    destruct (place_geom (rectQ sx sy sw sh) targetRect (Fin sc) (Fin ax)
                (Fin ay) strategy l1 (Fin d) dy) as [-> _].
    destruct (place_geom (rectQ sx sy sw sh) targetRect (Fin sc) (Fin ax)
                (Fin ay) strategy l2 (Fin d) dy) as [-> _].
    rewrite Hc1, Hc2. unfold rectQ. cbn [rect_x rect_y rect_w rect_h].
    fin_arith. eexists _, _. split; [reflexivity|]. split; [reflexivity|].
    field. done.
Qed.

(** [geometric_placement_is_affine] for two elements 20 units apart:
    their images sit at 40 and at 35 plus the delta, 5 units apart. *)
Lemma geometric_placement_is_affine_witness :
  geomX (place demo_source demo_target (frac 1 4) (num 35) (num 10) None
           plain_leaf (num 0) (num 0))
  ≡ Fin (35 + (20 - 0) * (1 # 4))%Q
  ∧ geomY (place demo_source demo_target (frac 1 4) (num 35) (num 10) None
             plain_leaf (num 0) (num 0))
    ≡ Fin (10 + (30 - 0) * (1 # 4))%Q
  ∧ ∃ X1 X2 : Q,
      finalX (place demo_source demo_target (frac 1 4) (num 35) (num 10) None
                plain_leaf (Fin 3) (num 0)) = Fin X1
      ∧ finalX (place demo_source demo_target (frac 1 4) (num 35) (num 10) None
                  lifted_child (Fin 3) (num 0)) = Fin X2
      ∧ (X1 - X2 == (1 # 4) * (20 - 0))%Q
      ∧ (X1 == 43)%Q ∧ (X2 == 38)%Q.
Proof.
  destruct (geometric_placement_is_affine 0 0 100 200 (1 # 4) 35 10
              demo_target None) as [Hg Hd]; [discriminate..|].
  split; [|split].
  - apply (Hg plain_leaf 20 30 10 10 (num 0) (num 0))%Q. reflexivity.
  - apply (Hg plain_leaf 20 30 10 10 (num 0) (num 0))%Q. reflexivity.
  - destruct (Hd plain_leaf lifted_child 20 30 10 10 0 (-40) 10 10 3 (num 0))%Q
      as (X1 & X2 & E1 & E2 & Hdist); try reflexivity.
    exists X1, X2. split; [exact E1|]. split; [exact E2|].
    split; [exact Hdist|].
    vm_compute in E1, E2. injection E1 as <-. injection E2 as <-.
    split; reflexivity.
Defined.

(** ** Overrides that match nothing *)

Lemma transformLayer_no_match (sourceRect targetRect : Rect)
    (scale anchorX anchorY : number) (strategy : option LayoutStrategy)
    (l : SerializableLayer) :
  Forall (λ n, find_override strategy (layer_id n) = None) (nodes l) →
  ∀ dx dy,
    transformLayer sourceRect targetRect scale anchorX anchorY strategy l dx dy
    = transformLayer sourceRect targetRect scale anchorX anchorY None l dx dy.
Proof.
  induction l as [l IH] using SerializableLayer_tree_ind. intros Hn dx dy.
  assert (find_override strategy (layer_id l) = None) as Hl.
  { destruct l; simpl in Hn. by apply Forall_cons in Hn as [? _]. }
  pose proof (place_ext sourceRect targetRect scale anchorX anchorY strategy
                None l dx dy Hl) as Hp.
  destruct l as [i n t [cs|] v o c]; simpl in *; rewrite Hp; [|done].
  do 2 f_equal. specialize (IH cs eq_refl).
  apply Forall_cons in Hn as [_ Hn]. rewrite Forall_flat_map in Hn.
  apply List.map_ext_Forall.
  rewrite Forall_forall in IH, Hn. apply Forall_forall.
  intros x Hx. apply IH; [done|]. by apply Hn.
Qed.

Lemma tdescend_no_strategy (sourceRect targetRect : Rect)
    (scale anchorX anchorY : number) (p : list nat) :
  ∀ (l : SerializableLayer) (dx dy : number),
    tdescend p (transformLayer sourceRect targetRect scale anchorX anchorY
                  None l dx dy)
    = (λ D, transformLayer sourceRect targetRect scale anchorX anchorY
              None D dx dy) <$> descend p l.
Proof.
  induction p as [|i p IH]; intros l dx dy; simpl; [done|].
  rewrite tchild_transformLayer.
  destruct (child i l) as [c|]; [|done]. simpl. apply IH.
Qed.

(** The resolver reads [suggestedScale] and [anchor] of a strategy
    only. *)
Lemma resolve_without_overrides (sourceRect targetRect : Rect)
    (s : LayoutStrategy) :
  resolve sourceRect targetRect (Some (without_overrides s))
  = resolve sourceRect targetRect (Some s).
Proof. reflexivity. Qed.

(** When no element of the trees has an override, the strategy's
    override list plays no role: the transformer gives the output it
    gives for the same strategy without the list, and so does the whole
    payload, whose scale and anchors come from the strategy's
    [suggestedScale] and [anchor] as before.  The delta of the top-level
    call reaches every depth unchanged, so each element sits at its
    geometric X plus that delta, at the clamp of its geometric Y plus
    that delta, with the base scale. *)
Theorem overrides_without_match_are_unused (sourceRect targetRect : Rect)
    (scale anchorX anchorY : number) (s : LayoutStrategy)
    (ls : list SerializableLayer) (dx dy : number) :
  Forall (λ n, find_override (Some s) (layer_id n) = None)
    (List.flat_map nodes ls) →
  transformLayers sourceRect targetRect scale anchorX anchorY (Some s) ls dx dy
  = transformLayers sourceRect targetRect scale anchorX anchorY
      (Some (without_overrides s)) ls dx dy
  ∧ (∀ (src : SourceData) (tgt : option TargetData),
       aiStrategy src = Some s → source_layers src = ls →
       computePayload (Some src) tgt
       = computePayload
           (Some (with_strategy src (Some (without_overrides s)))) tgt)
  ∧ ∀ (i : nat) (l D : SerializableLayer) (p : list nat),
      ls !! i = Some l → descend p l = Some D →
      ∃ t tD,
        transformLayers sourceRect targetRect scale anchorX anchorY (Some s)
          ls dx dy !! i = Some t
        ∧ tdescend p t = Some tD
        ∧ tl_id tD = layer_id D
        ∧ rect_x (tl_coords tD)
          = anchorX
            + (rect_x (coords D) - rect_x sourceRect) / rect_w sourceRect
              * (rect_w sourceRect * scale)
            + dx
        ∧ rect_y (tl_coords tD)
          = clampY targetRect
              (anchorY
               + (rect_y (coords D) - rect_y sourceRect) / rect_h sourceRect
                 * (rect_h sourceRect * scale)
               + dy)
        ∧ scaleX (transform tD) = scale.
Proof.
  intros Hn.
  assert (∀ sourceRect targetRect scale anchorX anchorY dx dy,
            transformLayers sourceRect targetRect scale anchorX anchorY
              (Some s) ls dx dy
            = transformLayers sourceRect targetRect scale anchorX anchorY None
                ls dx dy) as E.
  { intros. unfold transformLayers. apply List.map_ext_Forall.
    rewrite Forall_flat_map in Hn. eapply Forall_impl; [exact Hn|].
    intros l Hl. by apply transformLayer_no_match. }
  assert (∀ sourceRect targetRect scale anchorX anchorY dx dy,
            transformLayers sourceRect targetRect scale anchorX anchorY
              (Some (without_overrides s)) ls dx dy
            = transformLayers sourceRect targetRect scale anchorX anchorY None
                ls dx dy) as E'.
  { intros. unfold transformLayers. apply List.map_ext.
    intros l. by apply transformLayer_ext. }
  split; [by rewrite E, E'|]. split.
  - intros src [tgt|] Hs Hls; [|done].
    unfold computePayload, with_strategy.
    cbn [originalBounds aiStrategy source_layers source_nodeId source_name].
    rewrite Hs, Hls, resolve_without_overrides. by rewrite E, E'.
  - intros i l D p Hi HD. rewrite E. unfold transformLayers.
    eexists _, _. split.
    { change (List.map ?f ls) with (f <$> ls). by rewrite list_lookup_fmap, Hi. }
    split.
    { by rewrite tdescend_no_strategy, HD. }
    split; [apply transformLayer_id|].
    rewrite transformLayer_coords, transformLayer_transform.
    cbn [rect_x rect_y scaleX]. rewrite place_clamped.
    destruct (place_plain sourceRect targetRect scale anchorX anchorY None D
                dx dy eq_refl) as (-> & -> & _ & _ & -> & _).
    destruct (place_geom sourceRect targetRect scale anchorX anchorY None
                D dx dy) as [-> ->].
    done.
Qed.

(** [overrides_without_match_are_unused] for an override of ["root"]
    and a tree that has no such element. *)
Lemma overrides_without_match_are_unused_witness :
  let s := demo_strategy [root_override] in
  transformLayers demo_source demo_target (frac 1 4) (num 35) (num 10)
    (Some s) [lowered_parent] (num 1) (num 2)
  = transformLayers demo_source demo_target (frac 1 4) (num 35) (num 10)
      (Some (without_overrides s)) [lowered_parent] (num 1) (num 2)
  ∧ computePayload
      (Some (mkSourceData "SRC" "load-1" "out" [lowered_parent] demo_source
               (Some s))) (Some demo_slot)
    = computePayload
        (Some (mkSourceData "SRC" "load-1" "out" [lowered_parent] demo_source
                 (Some (without_overrides s)))) (Some demo_slot)
  ∧ ∃ t tD,
      transformLayers demo_source demo_target (frac 1 4) (num 35) (num 10)
        (Some s) [lowered_parent] (num 1) (num 2) !! 0%nat = Some t
      ∧ tdescend [1%nat] t = Some tD
      ∧ tl_id tD = "flush"
      ∧ scaleX (transform tD) = frac 1 4.
Proof.
  intros s.
  destruct (overrides_without_match_are_unused demo_source demo_target
              (frac 1 4) (num 35) (num 10) s [lowered_parent] (num 1) (num 2))
    as (E & Hp & H).
  - repeat constructor.
  - split; [exact E|]. split.
    + apply (Hp (mkSourceData "SRC" "load-1" "out" [lowered_parent]
                   demo_source (Some s)) (Some demo_slot)); reflexivity.
    + destruct (H 0%nat lowered_parent flush_child [1%nat] eq_refl eq_refl)
        as (t & tD & Ht & HtD & Hid & _ & _ & Hs).
      by exists t, tD.
Defined.

(** ** The clamp *)





(** ** Target resolution *)

Lemma digit_of_pretty_N_char (d : N) :
  (d < 10)%N → digit_of (pretty_N_char d) = Some (N.to_nat d).
Proof.
  intros Hd.
  assert (d = 0 ∨ d = 1 ∨ d = 2 ∨ d = 3 ∨ d = 4 ∨ d = 5 ∨ d = 6 ∨ d = 7
          ∨ d = 8 ∨ d = 9)%N as H by lia.
  by repeat (destruct H as [->|H]); subst.
Qed.

Lemma parse_digits_pretty_N_go (x : N) :
  ∀ s, parse_digits 0 (pretty_N_go x s) = parse_digits (N.to_nat x) s.
Proof.
  induction (N.lt_wf_0 x) as [x _ IH]. intros s.
  destruct (decide (x = 0)%N) as [->|Hx].
  - by rewrite pretty_N_go_0.
  - rewrite pretty_N_go_step by lia.
    rewrite IH by (apply N.div_lt; lia). simpl parse_digits.
    rewrite digit_of_pretty_N_char by (apply N.mod_lt; lia).
    f_equal. pose proof (N.div_mod x 10). lia.
Qed.

Lemma pretty_N_go_nonempty (x : N) :
  ∀ s, s ≠ "" → pretty_N_go x s ≠ "".
Proof.
  induction (N.lt_wf_0 x) as [x _ IH]. intros s Hs.
  destruct (decide (x = 0)%N) as [->|Hx].
  - by rewrite pretty_N_go_0.
  - rewrite pretty_N_go_step by lia. apply IH; [apply N.div_lt; lia|done].
Qed.

Lemma pretty_nat_nonempty (i : nat) : pretty i ≠ "".
Proof.
  unfold pretty, pretty_nat, pretty, pretty_N.
  destruct (decide (N.of_nat i = 0)%N); [done|].
  rewrite pretty_N_go_step by lia. by apply pretty_N_go_nonempty.
Qed.

Lemma parse_digits_pretty (i : nat) : parse_digits 0 (pretty i) = Some i.
Proof.
  unfold pretty, pretty_nat, pretty, pretty_N.
  destruct (decide (N.of_nat i = 0)%N) as [E|E].
  - simpl. f_equal. lia.
  - rewrite parse_digits_pretty_N_go. simpl. f_equal. lia.
Qed.

(** The handle [`target-out-${i}`] carries the index [i]. *)
Lemma indexMatch_pretty (i : nat) :
  indexMatch ("target-out-" +:+ pretty i) = Some i.
Proof.
  unfold indexMatch.
  change (startsWith "target-out-" ("target-out-" +:+ pretty i)) with true.
  change (drop_chars 11 ("target-out-" +:+ pretty i)) with (pretty i).
  pose proof (pretty_nat_nonempty i) as Hne.
  pose proof (parse_digits_pretty i) as Hp.
  by destruct (pretty i).
Qed.

Lemma find_container_Some (template : TemplateMetadata) (n : string)
    (c : ContainerDefinition) :
  find_container template n = Some c →
  c ∈ containers template ∧ container_name c = n.
Proof.
  unfold find_container. intros [Hin Hn]%List.find_some.
  split; [by apply list_elem_of_In|]. by apply bool_decide_eq_true in Hn.
Qed.

Lemma containerDefinition_elem (template : TemplateMetadata) (handle : string)
    (c : ContainerDefinition) :
  containerDefinition template handle = Some c → c ∈ containers template.
Proof.
  unfold containerDefinition.
  destruct (find_container template handle) as [a|] eqn:Ea.
  { intros ?; simplify_eq. by apply find_container_Some in Ea as [? _]. }
  destruct (if startsWith "slot-bounds-" handle then _ else _) as [b|] eqn:Eb.
  { intros ?; simplify_eq. destruct (startsWith _ _); [|done].
    by apply find_container_Some in Eb as [? _]. }
  destruct (match indexMatch handle with Some _ => _ | None => _ end)
    as [x|] eqn:Ex.
  { intros ?; simplify_eq. destruct (indexMatch handle); [|done].
    by eapply list_elem_of_lookup_2. }
  case_bool_decide; [|done]. intros Hc. by eapply list_elem_of_lookup_2.
Qed.

(** A resolved target is always taken from a container of the template
    that the [target-in-i] edge comes from: its bounds are that
    container's bounds and its name is the container's [originalName],
    or its [name] when the original name is empty. *)
Theorem resolved_target_is_a_template_container (edges : list Edge)
    (id : string) (templateRegistry : gmap string TemplateMetadata) (i : nat)
    (tgt : TargetData) :
  resolveTarget edges id templateRegistry i = Some tgt →
  ∃ (e : Edge) (template : TemplateMetadata) (c : ContainerDefinition),
    e ∈ edges ∧ edge_target e = id
    ∧ edge_targetHandle e = Some ("target-in-" +:+ pretty i)
    ∧ templateRegistry !! edge_source e = Some template
    ∧ c ∈ containers template
    ∧ target_bounds tgt = container_bounds c
    ∧ target_name tgt
      = (if bool_decide (originalName c = "") then container_name c
         else originalName c).
Proof.
  unfold resolveTarget, find_edge.
  destruct (List.find _ edges) as [e|] eqn:Ee; [|done].
  apply List.find_some in Ee as [Hin [Ht Hh]%andb_true_iff].
  apply bool_decide_eq_true in Ht, Hh.
  destruct (truthy_handle (edge_sourceHandle e)) as [handle|]; [|done].
  destruct (templateRegistry !! edge_source e) as [template|] eqn:Et; [|done].
  destruct (containerDefinition template handle) as [c|] eqn:Ec; [|done].
  intros [= <-]. exists e, template, c.
  split; [by apply list_elem_of_In|]. do 3 (split; [done|]).
  split; [by eapply containerDefinition_elem|]. done.
Qed.

Lemma resolved_target_is_a_template_container_witness :
  ∃ (e : Edge) (template : TemplateMetadata) (c : ContainerDefinition),
    e ∈ [mkEdge "template-1" (Some "target-out-2") "remap-1" (Some "target-in-0")]
    ∧ edge_target e = "remap-1"
    ∧ edge_targetHandle e = Some ("target-in-" +:+ pretty 0%nat)
    ∧ demo_templates !! edge_source e = Some template
    ∧ c ∈ containers template
    ∧ demo_target = container_bounds c
    ∧ "LOGO" = (if bool_decide (originalName c = "") then container_name c
                else originalName c).
Proof.
  apply (resolved_target_is_a_template_container
           [mkEdge "template-1" (Some "target-out-2") "remap-1"
              (Some "target-in-0")]
           "remap-1" demo_templates 0 (mkTargetData "LOGO" demo_target)).
  vm_compute. reflexivity.
Defined.

(** The forms of a target handle.  A container whose name is the handle
    itself wins; otherwise [slot-bounds-NAME] leads to the first
    container called [NAME], and otherwise [target-out-i] leads to the
    container at index [i].  An index past the end resolves to nothing in
    a template that does not have exactly one container. *)
Theorem target_handle_forms (template : TemplateMetadata)
    (c : ContainerDefinition) :
  (∀ handle, find_container template handle = Some c →
             containerDefinition template handle = Some c)
  ∧ (∀ n, find_container template ("slot-bounds-" +:+ n) = None →
          find_container template n = Some c →
          containerDefinition template ("slot-bounds-" +:+ n) = Some c)
  ∧ (∀ i : nat,
       find_container template ("target-out-" +:+ pretty i) = None →
       containers template !! i = Some c →
       containerDefinition template ("target-out-" +:+ pretty i) = Some c)
  ∧ (∀ i : nat,
       find_container template ("target-out-" +:+ pretty i) = None →
       (length (containers template) ≤ i)%nat →
       length (containers template) ≠ 1%nat →
       containerDefinition template ("target-out-" +:+ pretty i) = None).
Proof.
  split; [|split; [|split]].
  - intros handle H. unfold containerDefinition. by rewrite H.
  - intros n Ha Hb. unfold containerDefinition. rewrite Ha.
    change (startsWith "slot-bounds-" ("slot-bounds-" +:+ n)) with true.
    change (remove_first "slot-bounds-" ("slot-bounds-" +:+ n)) with n.
    by rewrite Hb.
  - intros i Ha Hi. unfold containerDefinition. rewrite Ha.
    change (startsWith "slot-bounds-" ("target-out-" +:+ pretty i)) with false.
    cbv iota. by rewrite indexMatch_pretty, Hi.
  - intros i Ha Hi Hlen. unfold containerDefinition. rewrite Ha.
    change (startsWith "slot-bounds-" ("target-out-" +:+ pretty i)) with false.
    cbv iota. rewrite indexMatch_pretty.
    rewrite (lookup_ge_None_2 _ _ Hi).
    by rewrite bool_decide_eq_false_2.
Qed.

Lemma target_handle_forms_witness :
  containerDefinition three_slots "SYMBOLS" = Some (slot "SYMBOLS")
  ∧ containerDefinition three_slots "slot-bounds-LOGO" = Some (slot "LOGO")
  ∧ containerDefinition three_slots ("target-out-" +:+ pretty 1%nat)
    = Some (slot "SYMBOLS")
  ∧ containerDefinition three_slots ("target-out-" +:+ pretty 3%nat) = None.
Proof.
  split; [|split; [|split]].
  - apply (proj1 (target_handle_forms three_slots (slot "SYMBOLS"))).
    reflexivity.
  - apply (proj1 (proj2 (target_handle_forms three_slots (slot "LOGO"))) "LOGO");
      reflexivity.
  - apply (proj1 (proj2 (proj2 (target_handle_forms three_slots
                                  (slot "SYMBOLS")))) 1%nat);
      reflexivity.
  - apply (proj2 (proj2 (proj2 (target_handle_forms three_slots (slot "BG"))))
             3%nat); [reflexivity|simpl; lia|discriminate].
Defined.

(** In a template with a single container every handle resolves to
    that container. *)
Theorem single_container_resolves_every_handle (template : TemplateMetadata)
    (c : ContainerDefinition) (handle : string) :
  containers template = [c] →
  containerDefinition template handle = Some c.
Proof.
  intros Hc.
  destruct (containerDefinition template handle) as [x|] eqn:E.
  - apply containerDefinition_elem in E. rewrite Hc in E.
    by apply list_elem_of_singleton in E as ->.
  - exfalso. revert E. unfold containerDefinition.
    destruct (find_container template handle); [done|].
    destruct (if startsWith "slot-bounds-" handle then _ else _); [done|].
    destruct (match indexMatch handle with Some _ => _ | None => _ end);
      [done|].
    by rewrite Hc.
Qed.

Lemma single_container_resolves_every_handle_witness :
  containerDefinition one_slot "anything" = Some (slot "BG").
Proof.
  apply single_container_resolves_every_handle. reflexivity.
Defined.

(** ** From the remapper to the export node *)

Lemma or_string_eq (s fallback : string) :
  or_string s fallback = fallback ↔ s = "" ∨ s = fallback.
Proof.
  unfold or_string. case_bool_decide as E.
  - split; [by left|done].
  - split; [by right|]. by intros [?| ->].
Qed.

(** The payload the remapper builds for a container declares the
    container's [originalName] (its [name] if that is empty), while the
    export node names the slot after [name].  So, plugged into the input
    handle of its own container, the payload fills the slot exactly when
    [originalName] is empty or equal to [name]; otherwise that edge adds a
    violation and fills nothing. *)
Theorem own_slot_accepts_payload_iff_names_agree (src : SourceData)
    (c : ContainerDefinition) (p : TransformedPayload) :
  computePayload (Some src) (Some (target_of c)) = Some p →
  (matched (container_name c, p)
   ↔ originalName c = "" ∨ originalName c = container_name c)
  ∧ ∀ (id : string)
      (payloadRegistry : gmap string (gmap string TransformedPayload))
      (acc : Validation) (edge : Edge),
      edge_target edge = id →
      edge_targetHandle edge = Some ("input-" +:+ container_name c) →
      edge_payload payloadRegistry edge = Some p →
      visit_edge id payloadRegistry acc edge
      = if bool_decide (originalName c = "" ∨ originalName c = container_name c)
        then mkValidation (<[container_name c := p]> (slotConnections acc))
               (validationErrors acc)
        else mkValidation (slotConnections acc)
               (validationErrors acc
                ++ [violation_message (originalName c) (container_name c)]).
Proof.
  intros Hp. simpl in Hp. injection Hp as <-.
  unfold matched. cbn [fst snd targetContainer].
  split; [apply or_string_eq|].
  intros id preg acc edge Ht Hh He.
  rewrite visit_edge_wiring. unfold wiring.
  rewrite (edge_slot_input id (container_name c) edge Ht Hh), He.
  unfold record_wiring, matched. cbn [fst snd targetContainer].
  destruct (decide (or_string (originalName c) (container_name c)
                    = container_name c)) as [E|E].
  - rewrite bool_decide_eq_true_2 by (by apply or_string_eq). done.
  - rewrite bool_decide_eq_false_2 by (by rewrite <- or_string_eq).
    do 3 f_equal. unfold or_string in *. case_bool_decide; [done|done].
Qed.

Lemma own_slot_accepts_payload_iff_names_agree_witness :
  ∃ p, computePayload (Some demo_source_data) (Some (target_of renamed_slot))
       = Some p
       ∧ ¬ matched ("target-out-0", p)
       ∧ validationErrors
           (visit_edge "export-1" {[ "remap-1" := {[ "result-out-0" := p ]} ]}
              (mkValidation ∅ [])
              (mkEdge "remap-1" (Some "result-out-0") "export-1"
                 (Some "input-target-out-0")))
         = ["PROCEDURAL VIOLATION: Payload targeting 'BG' is miswired to slot 'target-out-0'."].
Proof.
  eexists. split; [reflexivity|].
  match goal with |- ¬ matched (_, ?p) ∧ _ =>
    destruct (own_slot_accepts_payload_iff_names_agree demo_source_data
                renamed_slot p eq_refl) as [Hm Hv]
  end.
  split.
  - rewrite Hm. intros [H|H]; discriminate.
  - erewrite Hv; [reflexivity|reflexivity|reflexivity|].
    vm_compute. reflexivity.
Defined.

(** ** Instances *)

Lemma loadPsdNode_addInstance (id : string) (nds : list Node) :
  node_id <$> loadPsdNode (addInstance id nds) = node_id <$> loadPsdNode nds.
Proof.
  unfold loadPsdNode, addInstance.
  induction nds as [|n nds IH]; [done|]. simpl.
  destruct (bool_decide (node_id n = id)); simpl;
    (destruct (bool_decide (node_type n = Some "loadPsd")); [done|exact IH]).
Qed.

Lemma resolveSource_addInstance (edges : list Edge) (nds : list Node)
    (id id' : string) (resolvedRegistry : gmap string (gmap string MappingContext))
    (i : nat) :
  resolveSource edges (addInstance id' nds) id resolvedRegistry i
  = resolveSource edges nds id resolvedRegistry i.
Proof.
  unfold resolveSource.
  pose proof (loadPsdNode_addInstance id' nds) as H.
  destruct (loadPsdNode (addInstance id' nds)), (loadPsdNode nds);
    simplify_eq/=; try done.
  by rewrite H.
Qed.

Lemma computeInstance_addInstance (edges : list Edge) (nds : list Node)
    (id id' : string) (resolvedRegistry : gmap string (gmap string MappingContext))
    (templateRegistry : gmap string TemplateMetadata) (i : nat) :
  computeInstance edges (addInstance id' nds) id resolvedRegistry
    templateRegistry i
  = computeInstance edges nds id resolvedRegistry templateRegistry i.
Proof. unfold computeInstance. by rewrite resolveSource_addInstance. Qed.

(** There is always at least one instance, and the instance at
    position [i] has index [i].  [addInstance] raises the count of the
    nodes with the given id by one (from 1 when it was unset or zero) and
    leaves the other nodes alone; recomputed afterwards, the instances
    are the ones before followed by one new instance. *)
Theorem add_instance_appends_one (edges : list Edge) (nds : list Node)
    (id : string) (resolvedRegistry : gmap string (gmap string MappingContext))
    (templateRegistry : gmap string TemplateMetadata) (count : option nat) :
  let before :=
    instances edges nds id resolvedRegistry templateRegistry count in
  (1 ≤ length before)%nat
  ∧ (∀ i inst, before !! i = Some inst → instance_index inst = i)
  ∧ (∀ k n, nds !! k = Some n →
       addInstance id nds !! k
       = Some (if bool_decide (node_id n = id)
               then mkNode (node_id n) (node_type n)
                      (Some (instanceCount (node_instanceCount n) + 1)%nat)
               else n))
  ∧ instances edges (addInstance id nds) id resolvedRegistry templateRegistry
      (Some (instanceCount count + 1)%nat)
    = before
      ++ [computeInstance edges nds id resolvedRegistry templateRegistry
            (instanceCount count)].
Proof.
  cbv zeta. unfold instances. split; [|split; [|split]].
  - rewrite length_fmap, length_seq. destruct count as [[|n]|]; simpl; lia.
  - intros i inst. rewrite list_lookup_fmap.
    destruct (seq 0 (instanceCount count) !! i) as [j|] eqn:E; [|done].
    apply lookup_seq in E as [-> _]. by intros [= <-].
  - intros k n Hk. unfold addInstance. by rewrite list_lookup_fmap, Hk.
  - replace (instanceCount (Some (instanceCount count + 1)%nat))
      with (instanceCount count + 1)%nat
      by (destruct count as [[|n]|]; simpl; lia).
    rewrite seq_app, fmap_app. simpl. f_equal.
    + apply list_fmap_ext. intros ???. apply computeInstance_addInstance.
    + by rewrite computeInstance_addInstance.
Qed.

Lemma add_instance_appends_one_witness :
  instance_index <$> instances remap_edges remap_nodes "remap-1" remap_resolved
                       demo_templates None
  = [0%nat]
  ∧ addInstance "remap-1" remap_nodes !! 2%nat
    = Some (mkNode "remap-1" (Some "remapper") (Some 2%nat))
  ∧ length (instances remap_edges (addInstance "remap-1" remap_nodes) "remap-1"
              remap_resolved demo_templates (Some 2%nat)) = 2%nat.
Proof.
  destruct (add_instance_appends_one remap_edges remap_nodes "remap-1"
              remap_resolved demo_templates None) as (_ & Hi & Hn & Happ).
  split; [|split].
  - assert (instances remap_edges remap_nodes "remap-1" remap_resolved
              demo_templates None !! 0%nat
            = Some (computeInstance remap_edges remap_nodes "remap-1"
                      remap_resolved demo_templates 0)) as H0 by reflexivity.
    apply Hi in H0. unfold instances. cbn [instanceCount seq fmap list_fmap].
    by rewrite H0.
  - apply (Hn 2%nat (mkNode "remap-1" (Some "remapper") None)). reflexivity.
  - change (Some (instanceCount None + 1)%nat) with (Some 2%nat) in Happ.
    rewrite Happ. reflexivity.
Defined.

Lemma result_handle_inj (i j : nat) : result_handle i = result_handle j → i = j.
Proof.
  unfold result_handle. intros H.
  apply (inj (String.app "result-out-")) in H. by apply (inj pretty) in H.
Qed.

Lemma registered_payloads_elem (insts : list InstanceData) (k : string)
    (p : TransformedPayload) :
  (k, p) ∈ registered_payloads insts
  ↔ ∃ inst, inst ∈ insts ∧ k = result_handle (instance_index inst)
            ∧ instance_payload inst = Some p.
Proof.
  unfold registered_payloads. rewrite list_elem_of_omap. split.
  - intros (inst & Hin & H). exists inst. split; [done|].
    destruct (instance_payload inst); simplify_eq/=. done.
  - intros (inst & Hin & -> & Hp). exists inst. split; [done|].
    by rewrite Hp.
Qed.

Lemma registered_payloads_NoDup (insts : list InstanceData) :
  NoDup (instance_index <$> insts) → NoDup (registered_payloads insts).*1.
Proof.
  induction insts as [|inst insts IH]; [constructor|].
  rewrite fmap_cons. intros [Hnotin Hnd]%NoDup_cons.
  unfold registered_payloads. simpl.
  destruct (instance_payload inst) as [p|]; simpl; [|by apply IH].
  apply NoDup_cons. split; [|by apply IH].
  intros [[k q] [Hk Hin]]%list_elem_of_fmap. simpl in Hk. subst k.
  apply registered_payloads_elem in Hin as (inst' & Hin' & Hk & _).
  apply result_handle_inj in Hk. apply Hnotin. rewrite Hk.
  by apply list_elem_of_fmap_2.
Qed.

(** The payloads handed to the store carry pairwise different output
    handles, and the handle [result-out-i] carries the payload of
    instance [i] and nothing else; an instance has a payload exactly when
    both its source and its target are resolved. *)
Theorem registered_payloads_do_not_collide (edges : list Edge)
    (nds : list Node) (id : string)
    (resolvedRegistry : gmap string (gmap string MappingContext))
    (templateRegistry : gmap string TemplateMetadata) (count : option nat) :
  let insts :=
    instances edges nds id resolvedRegistry templateRegistry count in
  NoDup (registered_payloads insts).*1
  ∧ (∀ (i : nat) (p : TransformedPayload),
       (result_handle i, p) ∈ registered_payloads insts
       ↔ (i < instanceCount count)%nat
         ∧ instance_payload
             (computeInstance edges nds id resolvedRegistry templateRegistry i)
           = Some p)
  ∧ (∀ inst, inst ∈ insts →
       is_Some (instance_payload inst)
       ↔ is_Some (instance_source inst) ∧ is_Some (instance_target inst)).
Proof.
  cbv zeta. split; [|split].
  - apply registered_payloads_NoDup. unfold instances.
    rewrite <- list_fmap_compose.
    rewrite (list_fmap_ext _ (λ i : nat, i) (seq 0 (instanceCount count)))
      by done.
    rewrite list_fmap_id. apply NoDup_seq.
  - intros i p. rewrite registered_payloads_elem. unfold instances. split.
    + intros (inst & [j [-> Hj]]%list_elem_of_fmap & Hk & Hp).
      apply result_handle_inj in Hk. simpl in Hk. subst j.
      apply elem_of_seq in Hj. destruct Hj as [_ Hj]. by split.
    + intros [Hi Hp]. eexists. split.
      * apply list_elem_of_fmap_2, elem_of_seq. split; [apply Nat.le_0_l|done].
      * done.
  - intros inst [j [-> _]]%list_elem_of_fmap. unfold computeInstance. simpl.
    destruct (resolveSource _ _ _ _ _), (resolveTarget _ _ _ _); simpl;
      (split; [intros [x Hx]|intros [[x Hx] [y Hy]]]; try done; eauto).
Qed.

Lemma registered_payloads_do_not_collide_witness :
  ∃ p, (result_handle 0, p)
       ∈ registered_payloads
           (instances remap_edges remap_nodes "remap-1" remap_resolved
              demo_templates None)
       ∧ targetContainer p = "SYMBOLS".
Proof.
  destruct (registered_payloads_do_not_collide remap_edges remap_nodes
              "remap-1" remap_resolved demo_templates None) as (_ & H & _).
  eexists. split.
  - apply H. split; [simpl; lia|]. reflexivity.
  - reflexivity.
Defined.

(** A payload always stems from an edge into [source-in-i] of this
    node: that edge has a non-empty source handle under which the
    registry holds the context whose container name, bounds and layers
    the payload is computed from.  The document the payload points to
    ([sourceNodeId]) is the first node of type [loadPsd] when the graph
    has one, whichever node the edge comes from, and the edge's source
    node otherwise. *)
Theorem payload_source_of_instance (edges : list Edge) (nds : list Node)
    (id : string) (resolvedRegistry : gmap string (gmap string MappingContext))
    (templateRegistry : gmap string TemplateMetadata) (i : nat)
    (p : TransformedPayload) :
  instance_payload
    (computeInstance edges nds id resolvedRegistry templateRegistry i)
  = Some p →
  ∃ (e : Edge) (h : string) (reg : gmap string MappingContext)
    (context : MappingContext),
    e ∈ edges ∧ edge_target e = id
    ∧ edge_targetHandle e = Some ("source-in-" +:+ pretty i)
    ∧ edge_sourceHandle e = Some h ∧ h ≠ ""
    ∧ resolvedRegistry !! edge_source e = Some reg
    ∧ reg !! h = Some context
    ∧ sourceContainer p = containerName (context_container context)
    ∧ length (layers p) = length (context_layers context)
    ∧ sourceNodeId p
      = match loadPsdNode nds with
        | Some n => node_id n
        | None => edge_source e
        end.
Proof.
  unfold computeInstance. cbn [instance_payload].
  unfold resolveSource, find_edge.
  destruct (List.find _ edges) as [e|] eqn:Ee; [|done].
  apply List.find_some in Ee as [Hin [Ht Hh]%andb_true_iff].
  apply bool_decide_eq_true in Ht, Hh.
  unfold truthy_handle.
  destruct (edge_sourceHandle e) as [h|] eqn:Eh; [|done].
  case_bool_decide as Hne; [done|].
  destruct (resolvedRegistry !! edge_source e) as [reg|] eqn:Er; [|done].
  destruct (reg !! h) as [context|] eqn:Ec; [|done].
  simpl. destruct (resolveTarget _ _ _ _) as [tgt|]; [|done].
  intros [= <-]. exists e, h, reg, context.
  split; [by apply list_elem_of_In|]. do 6 (split; [done|]).
  simpl. split; [done|]. split; [|done].
  unfold transformLayers. by rewrite length_map.
Qed.

Lemma payload_source_of_instance_witness :
  ∃ p, instance_payload
         (computeInstance remap_edges remap_nodes "remap-1" remap_resolved
            demo_templates 0) = Some p
       ∧ sourceNodeId p = "load-1".
Proof.
  eexists. split; [reflexivity|].
  match goal with |- sourceNodeId ?p = _ =>
    destruct (payload_source_of_instance remap_edges remap_nodes "remap-1"
                remap_resolved demo_templates 0 p eq_refl)
      as (e & h & reg & context & _ & _ & _ & _ & _ & _ & _ & _ & _ & Hs)
  end.
  rewrite Hs. reflexivity.
Defined.

(** * Further properties of the export node *)

(** ** Which slots are filled *)

Lemma foldl_insert_is_Some (ws : list (string * TransformedPayload)) :
  ∀ (m : gmap string TransformedPayload) (s : string),
    is_Some (foldl (λ m w, <[w.1 := w.2]> m) m ws !! s)
    ↔ is_Some (m !! s) ∨ s ∈ ws.*1.
Proof.
  induction ws as [|[s' p'] ws IH]; intros m s; simpl.
  - rewrite elem_of_nil. split; [by left|by intros [?|[]]].
  - rewrite IH, elem_of_cons.
    destruct (decide (s = s')) as [->|Hne].
    + rewrite lookup_insert_eq. split; [intros _|intros _; left; eauto].
      right. by left.
    + rewrite lookup_insert_ne by done. tauto.
Qed.

Lemma size_foldl_insert_le (ws : list (string * TransformedPayload)) :
  ∀ m : gmap string TransformedPayload,
    (size (foldl (λ m w, <[w.1 := w.2]> m) m ws) ≤ size m + length ws)%nat.
Proof.
  induction ws as [|w ws IH]; intros m; simpl; [lia|].
  etrans; [apply IH|].
  destruct (m !! w.1) eqn:E.
  - rewrite map_size_insert_Some by eauto. lia.
  - rewrite map_size_insert_None by done. lia.
Qed.

Lemma foldl_insert_last (ws2 : list (string * TransformedPayload)) :
  ∀ (m : gmap string TransformedPayload) (s : string),
    s ∉ ws2.*1 →
    foldl (λ m w, <[w.1 := w.2]> m) m ws2 !! s = m !! s.
Proof.
  induction ws2 as [|[s' p'] ws IH]; intros m s Hs; simpl; [done|].
  rewrite fmap_cons, not_elem_of_cons in Hs. destruct Hs as [Hne Hs].
  rewrite IH by done. by rewrite lookup_insert_ne.
Qed.

Lemma wirings_length (edges : list Edge) (id : string)
    (payloadRegistry : gmap string (gmap string TransformedPayload)) :
  (length (wirings edges id payloadRegistry) ≤ length edges)%nat.
Proof.
  unfold wirings. induction edges as [|e edges IH]; simpl; [lia|].
  unfold omap in IH. destruct (wiring id payloadRegistry e); simpl; lia.
Qed.

(** A slot is filled exactly when some edge wires a payload into it
    that declares this very slot; every wired payload either fills a slot
    or adds one violation, several matching payloads on one slot fill it
    once, and edges that carry no payload or end elsewhere count for
    nothing. *)
Theorem filled_slots_are_the_matched_ones (edges : list Edge) (id : string)
    (payloadRegistry : gmap string (gmap string TransformedPayload)) :
  let v := validate edges id payloadRegistry in
  let ws := wirings edges id payloadRegistry in
  (∀ s, is_Some (slotConnections v !! s)
        ↔ ∃ p, (s, p) ∈ ws ∧ targetContainer p = s)
  ∧ length (validationErrors v) = length (filter (λ w, ¬ matched w) ws)
  ∧ (size (slotConnections v) ≤ length (filter matched ws))%nat
  ∧ (size (slotConnections v) + length (validationErrors v) ≤ length ws)%nat
  ∧ (length ws ≤ length edges)%nat.
Proof.
  cbv zeta.
  rewrite validate_wirings, record_wirings_errors, record_wirings_connections.
  cbn [slotConnections validationErrors app].
  set (ws := wirings edges id payloadRegistry).
  assert (size (foldl (λ m w, <[w.1 := w.2]> m) (∅ : gmap string TransformedPayload)
                  (filter matched ws))
          ≤ length (filter matched ws))%nat as Hsize.
  { etrans; [apply size_foldl_insert_le|]. by rewrite map_size_empty. }
  split; [|split; [|split; [|split]]].
  - intros s. rewrite foldl_insert_is_Some, lookup_empty. split.
    + intros [[? ?]|Hs]; [done|].
      apply list_elem_of_fmap in Hs as ([s' p] & -> & Hin).
      apply list_elem_of_filter in Hin as [Hm Hin]. by exists p.
    + intros (p & Hin & Hm). right.
      apply (list_elem_of_fmap_2 fst _ (s, p)).
      by apply list_elem_of_filter.
  - by rewrite length_fmap.
  - exact Hsize.
  - rewrite length_fmap.
    pose proof (filter_app_complement matched ws) as Hperm.
    apply Permutation_length in Hperm. rewrite length_app in Hperm. lia.
  - apply wirings_length.
Qed.

(** When several edges wire matching payloads into the same slot, the
    slot holds the payload of the last of them in edge order. *)
Theorem last_matching_wiring_wins (edges : list Edge) (id : string)
    (payloadRegistry : gmap string (gmap string TransformedPayload))
    (ws1 ws2 : list (string * TransformedPayload)) (s : string)
    (p : TransformedPayload) :
  wirings edges id payloadRegistry = ws1 ++ (s, p) :: ws2 →
  targetContainer p = s →
  (∀ q, (s, q) ∈ ws2 → targetContainer q ≠ s) →
  slotConnections (validate edges id payloadRegistry) !! s = Some p.
Proof.
  intros Hws Hp Hlast.
  rewrite validate_wirings, record_wirings_connections, Hws.
  cbn [slotConnections]. rewrite filter_app, filter_cons_True by done.
  rewrite foldl_app. simpl. rewrite foldl_insert_last.
  - apply lookup_insert_eq.
  - intros ([s' q] & Hs & Hin)%list_elem_of_fmap. simpl in Hs. subst s'.
    apply list_elem_of_filter in Hin as [Hm Hin]. by apply (Hlast q).
Qed.

Lemma last_matching_wiring_wins_witness :
  slotConnections (validate dup_edges "export-1" dup_payloads) !! "BG"
  = Some second_payload.
Proof.
  apply (last_matching_wiring_wins dup_edges "export-1" dup_payloads
           [("BG", payload_for "BG")] []).
  - vm_compute. reflexivity.
  - reflexivity.
  - intros q Hq. by apply elem_of_nil in Hq.
Defined.

(** ** The exported document *)

Lemma finalChildren_all_filled
    (findLayerByPath : Psd → string → option Layer)
    (psdRegistry : gmap string Psd)
    (slotConnections : gmap string TransformedPayload)
    (containers : list ContainerDefinition) :
  Forall (filled slotConnections) containers →
  ∀ groups,
    finalChildren findLayerByPath psdRegistry slotConnections containers
    = inl groups →
    Forall2 (group_of findLayerByPath psdRegistry slotConnections)
      containers groups.
Proof.
  induction 1 as [|c cs [p Hp] _ IH]; intros groups; simpl.
  - intros [= <-]. constructor.
  - rewrite Hp.
    destruct (psdRegistry !! sourceNodeId p) as [psd|] eqn:Epsd; [|done].
    destruct (finalChildren _ _ _ cs) as [gs|]; [|done].
    intros [= <-]. constructor; [|by apply IH].
    exists p, psd. by repeat split.
Qed.

Lemma finalChildren_error_source
    (findLayerByPath : Psd → string → option Layer)
    (psdRegistry : gmap string Psd)
    (slotConnections : gmap string TransformedPayload)
    (containers : list ContainerDefinition) (message : string) :
  finalChildren findLayerByPath psdRegistry slotConnections containers
  = inr message →
  ∃ c payload,
    slotConnections !! container_name c = Some payload
    ∧ psdRegistry !! sourceNodeId payload = None
    ∧ message = missing_psd_message (sourceNodeId payload).
Proof.
  induction containers as [|c cs IH]; simpl; [done|].
  destruct (slotConnections !! container_name c) as [p|] eqn:Ep; [|exact IH].
  destruct (psdRegistry !! sourceNodeId p) as [psd|] eqn:Epsd.
  - destruct (finalChildren _ _ _ cs) as [gs|msg]; [done|].
    intros [= ->]. by apply IH.
  - intros [= <-]. by exists c, p.
Qed.

(** When no source document is missing, the export builds one group
    for each filled container and none for the others, in the order of
    the template's containers: each group is named after the container's
    [originalName], is opened, has the container's bounds, and holds the
    reconstruction of the slot's payload. *)
Theorem exported_groups_follow_the_template
    (findLayerByPath : Psd → string → option Layer)
    (psdRegistry : gmap string Psd)
    (slotConnections : gmap string TransformedPayload)
    (containers : list ContainerDefinition) (groups : list Layer) :
  finalChildren findLayerByPath psdRegistry slotConnections containers
  = inl groups →
  Forall2 (group_of findLayerByPath psdRegistry slotConnections)
    (filter (filled slotConnections) containers) groups.
Proof.
  revert groups. induction containers as [|c cs IH]; intros groups; simpl.
  - intros [= <-]. constructor.
  - destruct (slotConnections !! container_name c) as [p|] eqn:Ep.
    + rewrite filter_cons_True by (unfold filled; rewrite Ep; eauto).
      destruct (psdRegistry !! sourceNodeId p) as [psd|] eqn:Epsd; [|done].
      destruct (finalChildren _ _ _ cs) as [gs|]; [|done].
      intros [= <-]. constructor; [|by apply IH].
      exists p, psd. by repeat split.
    + rewrite filter_cons_False
        by (unfold filled; rewrite Ep; by intros [? ?]).
      apply IH.
Qed.

Lemma exported_groups_follow_the_template_witness :
  ∃ groups,
    finalChildren demo_finder bg_psds
      (slotConnections (validate bg_edges "export-1" bg_payloads))
      [slot "LOGO"; slot "BG"] = inl groups
    ∧ Forall2
        (group_of demo_finder bg_psds
           (slotConnections (validate bg_edges "export-1" bg_payloads)))
        (filter
           (filled (slotConnections (validate bg_edges "export-1" bg_payloads)))
           [slot "LOGO"; slot "BG"])
        groups.
Proof.
  eexists. split; [vm_compute; reflexivity|].
  apply exported_groups_follow_the_template. vm_compute. reflexivity.
Defined.

(** The build fails exactly when some filled container's payload names
    a source document that is not registered; the message is the one for
    the first such container in template order, and nothing is produced
    for the containers before or after it. *)
Theorem missing_document_aborts_the_build
    (findLayerByPath : Psd → string → option Layer)
    (psdRegistry : gmap string Psd)
    (slotConnections : gmap string TransformedPayload)
    (containers : list ContainerDefinition) (message : string) :
  finalChildren findLayerByPath psdRegistry slotConnections containers
  = inr message
  ↔ ∃ c1 c c2 payload,
      containers = c1 ++ c :: c2
      ∧ Forall (document_present psdRegistry slotConnections) c1
      ∧ slotConnections !! container_name c = Some payload
      ∧ psdRegistry !! sourceNodeId payload = None
      ∧ message = missing_psd_message (sourceNodeId payload).
Proof.
  split.
  - induction containers as [|c cs IH]; simpl; [done|].
    destruct (slotConnections !! container_name c) as [p|] eqn:Ep.
    + destruct (psdRegistry !! sourceNodeId p) as [psd|] eqn:Epsd.
      * destruct (finalChildren _ _ _ cs) as [gs|msg] eqn:E; [done|].
        intros [= ->].
        destruct (IH eq_refl) as (c1 & c' & c2 & p' & -> & Hc1 & ? & ? & ?).
        exists (c :: c1), c', c2, p'. split; [done|]. split; [|done].
        constructor; [|done]. intros q Hq. simplify_eq. eauto.
      * intros [= <-]. exists [], c, cs, p. by repeat split.
    + intros H. destruct (IH H) as (c1 & c' & c2 & p' & -> & Hc1 & ? & ? & ?).
      exists (c :: c1), c', c2, p'. split; [done|]. split; [|done].
      constructor; [|done]. intros q Hq. simplify_eq.
  - intros (c1 & c & c2 & p & -> & Hc1 & Hp & Hpsd & ->).
    induction Hc1 as [|c' c1 Hc' _ IH]; simpl.
    + by rewrite Hp, Hpsd.
    + destruct (slotConnections !! container_name c') as [p'|] eqn:Ep'.
      * destruct (Hc' p' Ep') as [psd ->]. by rewrite IH.
      * exact IH.
Qed.

(** The message thrown for a missing document is never empty, so the
    [catch] keeps it. *)
Lemma caught_missing_psd_message (sourceNodeId : string) :
  caught_message (Some (missing_psd_message sourceNodeId))
  = missing_psd_message sourceNodeId.
Proof. reflexivity. Qed.

(** The export does nothing exactly when the assembly is not complete.
    Otherwise a template with at least one container is resolved, there
    are as many filled slots as containers and no violation, and one of
    two things happens.  Either the document of a filled slot is missing:
    the export error is the message about it and [writePsdFile] is not
    reached.  Or the document with the template's canvas size and the
    groups built from the containers is handed to [writePsdFile]: it is
    written when the writer succeeds, and when the writer throws the
    export error is the [message] of what it threw, or
    ["Unknown export error"] when that is empty or absent. *)
Theorem export_outcomes (findLayerByPath : Psd → string → option Layer)
    (writePsdFile : Psd → Settled)
    (edges : list Edge) (id : string)
    (templateRegistry : gmap string TemplateMetadata)
    (payloadRegistry : gmap string (gmap string TransformedPayload))
    (psdRegistry : gmap string Psd) :
  let a := assembly_status edges id templateRegistry payloadRegistry in
  let v := validate edges id payloadRegistry in
  let outcome := handleExport findLayerByPath writePsdFile edges id
                   templateRegistry payloadRegistry psdRegistry in
  (outcome = NotStarted ↔ isFullyAssembled a = false)
  ∧ (isFullyAssembled a = true →
       ∃ t, templateMetadata edges id templateRegistry = Some t
            ∧ containers t ≠ []
            ∧ size (slotConnections v) = length (containers t)
            ∧ validationErrors v = []
            ∧ ((∃ s payload,
                  slotConnections v !! s = Some payload
                  ∧ psdRegistry !! sourceNodeId payload = None
                  ∧ outcome
                    = ExportError (missing_psd_message (sourceNodeId payload)))
               ∨ (∃ newPsd,
                    psd_width newPsd = canvas_width t
                    ∧ psd_height newPsd = canvas_height t
                    ∧ finalChildren findLayerByPath psdRegistry
                        (slotConnections v) (containers t)
                      = inl (psd_layers newPsd)
                    ∧ outcome = writeOutcome writePsdFile newPsd
                    ∧ (writePsdFile newPsd = Fulfilled →
                       outcome = Written newPsd)
                    ∧ (∀ message, writePsdFile newPsd = Rejected message →
                         outcome
                         = ExportError
                             (or_string (default "" message)
                                "Unknown export error")))))
  ∧ (∀ newPsd, outcome = Written newPsd →
       isFullyAssembled a = true ∧ writePsdFile newPsd = Fulfilled).
Proof.
  cbv zeta. unfold handleExport.
  destruct (templateMetadata edges id templateRegistry) as [t|] eqn:Et.
  - destruct (isFullyAssembled _) eqn:Hfull.
    + unfold assembly_status in Hfull. rewrite Et in Hfull.
      cbn [isFullyAssembled containers_of] in Hfull.
      apply andb_true_iff in Hfull as [Hfull Herr].
      apply andb_true_iff in Hfull as [Hfull Hpos].
      apply andb_true_iff in Hfull as [_ Hsize].
      apply Nat.eqb_eq in Hsize, Herr. apply Nat.ltb_lt in Hpos.
      assert (containers t ≠ []) as Hne.
      { intros E. rewrite E in Hpos. simpl in Hpos. lia. }
      destruct (finalChildren _ _ _ _) as [groups|msg] eqn:Ef.
      * unfold writeOutcome. cbn [psd_layers].
        split.
        { split; [|done]. by destruct (writePsdFile _). }
        split.
        { intros _. exists t. split; [done|]. split; [done|].
          split; [done|]. split; [by apply nil_length_inv|].
          right. eexists (mkPsd _ _ groups). cbn [psd_width psd_height psd_layers].
          split; [done|]. split; [done|]. split; [done|]. split; [done|].
          split; [by intros ->|]. by intros message ->. }
        intros newPsd H. split; [done|].
        destruct (writePsdFile _) eqn:Ew; [|done]. by simplify_eq.
      * apply finalChildren_error_source in Ef as (c & p & Hp & Hpsd & ->).
        rewrite caught_missing_psd_message.
        split; [done|]. split; [|done].
        intros _. exists t. split; [done|]. split; [done|].
        split; [done|]. split; [by apply nil_length_inv|].
        left. by exists (container_name c), p.
    + split; [done|]. split; done.
  - assert (isFullyAssembled
              (assembly_status edges id templateRegistry payloadRegistry)
            = false) as ->.
    { unfold assembly_status. by rewrite Et. }
    split; [done|]. split; done.
Qed.

(** With the document built and the writer out of space, the export
    ends in the writer's message. *)
Example export_with_failing_writer :
  ∃ newPsd,
    handleExport demo_finder failing_writer bg_edges "export-1" bg_templates
      bg_payloads bg_psds
    = ExportError "QuotaExceededError"
    ∧ handleExport demo_finder working_writer bg_edges "export-1" bg_templates
        bg_payloads bg_psds
      = Written newPsd.
Proof. eexists. split; vm_compute; reflexivity. Qed.

Lemma all_slots_filled (sc : gmap string TransformedPayload)
    (cs : list ContainerDefinition) :
  NoDup (container_name <$> cs) →
  size sc = length cs →
  (∀ s, is_Some (sc !! s) → s ∈ container_name <$> cs) →
  Forall (filled sc) cs.
Proof.
  intros Hnd Hsize Hdom.
  assert (dom sc ≡ list_to_set (C := gset string) (container_name <$> cs)) as E.
  { apply set_subseteq_size_equiv.
    - intros s Hs. apply elem_of_dom in Hs. apply elem_of_list_to_set. eauto.
    - rewrite size_dom, size_list_to_set, length_fmap by done. lia. }
  apply Forall_forall. intros c Hc. unfold filled. apply elem_of_dom.
  rewrite E. apply elem_of_list_to_set. by apply list_elem_of_fmap_2.
Qed.

(** With a fully assembled template whose containers have pairwise
    different names, whose filled slots all bear the name of a container,
    and whose payloads all point to registered documents, the document
    handed to [writePsdFile], and written when the writer succeeds, has
    exactly one group per container, in template order, named after the
    containers' [originalName]s. *)
Theorem complete_export_has_every_container
    (findLayerByPath : Psd → string → option Layer)
    (writePsdFile : Psd → Settled)
    (edges : list Edge) (id : string)
    (templateRegistry : gmap string TemplateMetadata)
    (payloadRegistry : gmap string (gmap string TransformedPayload))
    (psdRegistry : gmap string Psd) (t : TemplateMetadata) :
  let v := validate edges id payloadRegistry in
  templateMetadata edges id templateRegistry = Some t →
  isFullyAssembled
    (assembly_status edges id templateRegistry payloadRegistry) = true →
  NoDup (container_name <$> containers t) →
  (∀ s, is_Some (slotConnections v !! s) →
        s ∈ container_name <$> containers t) →
  (∀ s payload, slotConnections v !! s = Some payload →
                is_Some (psdRegistry !! sourceNodeId payload)) →
  ∃ newPsd,
    handleExport findLayerByPath writePsdFile edges id templateRegistry
      payloadRegistry psdRegistry = writeOutcome writePsdFile newPsd
    ∧ (writePsdFile newPsd = Fulfilled →
       handleExport findLayerByPath writePsdFile edges id templateRegistry
         payloadRegistry psdRegistry = Written newPsd)
    ∧ Forall2 (group_of findLayerByPath psdRegistry (slotConnections v))
        (containers t) (psd_layers newPsd)
    ∧ psd_name <$> psd_layers newPsd
      = (λ c, Some (originalName c)) <$> containers t.
Proof.
  intros v Ht Hfull Hnd Hdom Hreg. subst v.
  destruct (finalChildren_total findLayerByPath psdRegistry _ (containers t)
              Hreg) as [groups Hg].
  exists (mkPsd (canvas_width t) (canvas_height t) groups).
  assert (handleExport findLayerByPath writePsdFile edges id templateRegistry
            payloadRegistry psdRegistry
          = writeOutcome writePsdFile
              (mkPsd (canvas_width t) (canvas_height t) groups)) as Hout.
  { unfold handleExport. by rewrite Ht, Hfull, Hg. }
  split; [exact Hout|].
  split; [rewrite Hout; unfold writeOutcome; by intros ->|].
  assert (Forall (filled (slotConnections (validate edges id payloadRegistry)))
            (containers t)) as Hall.
  { apply all_slots_filled; [done| |done].
    unfold assembly_status in Hfull. rewrite Ht in Hfull.
    cbn [isFullyAssembled containers_of] in Hfull.
    apply andb_true_iff in Hfull as [Hfull _].
    apply andb_true_iff in Hfull as [Hfull _].
    apply andb_true_iff in Hfull as [_ Hsize].
    by apply Nat.eqb_eq in Hsize. }
  apply (finalChildren_all_filled _ _ _ _ Hall) in Hg. cbn [psd_layers].
  split; [exact Hg|].
  clear -Hg. induction Hg as [|c g cs gs Hcg _ IH]; [done|].
  rewrite !fmap_cons, IH. f_equal.
  by destruct Hcg as (? & ? & _ & _ & -> & _).
Qed.

Lemma complete_export_has_every_container_witness :
  ∃ newPsd,
    handleExport demo_finder working_writer bg_edges "export-1" bg_templates
      bg_payloads bg_psds = Written newPsd
    ∧ Forall2
        (group_of demo_finder bg_psds
           (slotConnections (validate bg_edges "export-1" bg_payloads)))
        (containers one_slot) (psd_layers newPsd)
    ∧ psd_name <$> psd_layers newPsd
      = (λ c, Some (originalName c)) <$> containers one_slot.
Proof.
  assert (slotConnections (validate bg_edges "export-1" bg_payloads)
          = {[ "BG" := mkTransformedPayload success "load-1" "SOURCE" "BG"
                         [placed "0"; placed "7"] (num 1)
                         (mkMetrics (num 100, num 200) (num 50, num 50)) ]})
    as Hv by (vm_compute; reflexivity).
  destruct (complete_export_has_every_container demo_finder working_writer
              bg_edges "export-1" bg_templates bg_payloads bg_psds one_slot)
    as (newPsd & _ & Hw & Hg & Hn).
  - vm_compute. reflexivity.
  - vm_compute. reflexivity.
  - apply (bool_decide_unpack _). vm_compute. exact I.
  - intros s. rewrite Hv. intros [p [<- _]%lookup_singleton_Some].
    apply list_elem_of_here.
  - intros s p. rewrite Hv. intros [_ <-]%lookup_singleton_Some. by eexists.
  - exists newPsd. split; [by apply Hw|]. split; [exact Hg|exact Hn].
Defined.

(** ** Reconstructed layers *)

Lemma reconstructHierarchy_cons (findLayerByPath : Psd → string → option Layer)
    (m : TransformedLayer) (ls : list TransformedLayer) (sourcePsd : Psd) :
  reconstructHierarchy findLayerByPath (m :: ls) sourcePsd
  = match reconstructLayer findLayerByPath sourcePsd m with
    | Some newLayer =>
        newLayer :: reconstructHierarchy findLayerByPath ls sourcePsd
    | None => reconstructHierarchy findLayerByPath ls sourcePsd
    end.
Proof. reflexivity. Qed.

(** The reconstructed list holds, in the order of the transformed
    elements, one layer for each element found in the original document,
    carrying the name and the untouched properties of the original; it is
    as long as the input exactly when every lookup succeeds. *)
Theorem reconstruction_keeps_found_layers_in_order
    (findLayerByPath : Psd → string → option Layer)
    (ls : list TransformedLayer) (sourcePsd : Psd) :
  let out := reconstructHierarchy findLayerByPath ls sourcePsd in
  original_part <$> out
  = omap (λ m, original_part <$> findLayerByPath sourcePsd (tl_id m)) ls
  ∧ (length out ≤ length ls)%nat
  ∧ (length out = length ls
     ↔ Forall (λ m, is_Some (findLayerByPath sourcePsd (tl_id m))) ls).
Proof.
  cbv zeta. induction ls as [|m ls (IH1 & IH2 & IH3)].
  - split; [done|]. split; [done|]. split; [constructor|done].
  - rewrite reconstructHierarchy_cons, reconstructLayer_unfold.
    cbn [omap list_omap].
    destruct (findLayerByPath sourcePsd (tl_id m)) as [orig|] eqn:E.
    + cbv zeta. cbn [fmap option_fmap option_map].
      rewrite fmap_cons. split; [by f_equal|].
      split; [simpl; lia|]. simpl. rewrite Forall_cons. split.
      * intros H. split; [eauto|]. apply IH3. lia.
      * intros [_ H]. apply IH3 in H. lia.
    + cbn [fmap option_fmap option_map]. split; [exact IH1|].
      split; [simpl; lia|]. simpl. rewrite Forall_cons. split.
      * intros H. lia.
      * intros [[x Hx] _]. by rewrite E in Hx.
Qed.

Lemma reconstructHierarchy_size_le
    (findLayerByPath : Psd → string → option Layer) (sourcePsd : Psd)
    (ls : list TransformedLayer) :
  Forall (λ t, ∀ l, reconstructLayer findLayerByPath sourcePsd t = Some l →
                    (layer_size l ≤ length (tnodes t))%nat) ls →
  (list_sum (List.map layer_size
               (reconstructHierarchy findLayerByPath ls sourcePsd))
   ≤ length (List.flat_map tnodes ls))%nat.
Proof.
  induction 1 as [|t ls Ht _ IH]; [done|].
  rewrite reconstructHierarchy_cons.
  change (List.flat_map tnodes (t :: ls))
    with (tnodes t ++ List.flat_map tnodes ls).
  rewrite length_app.
  destruct (reconstructLayer findLayerByPath sourcePsd t) as [l|].
  - specialize (Ht l eq_refl). simpl. lia.
  - lia.
Qed.

Lemma reconstructLayer_size_le
    (findLayerByPath : Psd → string → option Layer) (sourcePsd : Psd)
    (t : TransformedLayer) :
  ∀ l, reconstructLayer findLayerByPath sourcePsd t = Some l →
       (layer_size l ≤ length (tnodes t))%nat.
Proof.
  induction t as [t IH] using TransformedLayer_tree_ind. intros l.
  rewrite reconstructLayer_unfold.
  destruct (findLayerByPath sourcePsd (tl_id t)) as [orig|]; [|done].
  cbv zeta. intros [= <-].
  destruct t as [i n ty [cs|] v o c tr]; destruct ty; simpl; try lia.
  specialize (IH cs eq_refl).
  pose proof (reconstructHierarchy_size_le findLayerByPath sourcePsd cs IH).
  lia.
Qed.

(** Reconstruction never makes layers up: the output trees have at most
    as many layers as the transformed trees have elements, and the
    children of an output layer are rebuilt from the transformed element
    alone (none for an element that is not a group or has no children),
    never copied from the original layer. *)
Theorem reconstruction_adds_no_layers
    (findLayerByPath : Psd → string → option Layer) (sourcePsd : Psd)
    (ls : list TransformedLayer) :
  (list_sum (List.map layer_size
               (reconstructHierarchy findLayerByPath ls sourcePsd))
   ≤ length (List.flat_map tnodes ls))%nat
  ∧ ∀ m newLayer,
      reconstructLayer findLayerByPath sourcePsd m = Some newLayer →
      psd_children newLayer
      = match tl_type m, tl_children m with
        | group, Some cs =>
            Some (reconstructHierarchy findLayerByPath cs sourcePsd)
        | _, _ => None
        end.
Proof.
  split.
  - apply reconstructHierarchy_size_le, Forall_forall.
    intros t _. apply reconstructLayer_size_le.
  - intros m newLayer. rewrite reconstructLayer_unfold.
    destruct (findLayerByPath sourcePsd (tl_id m)); [|done].
    by intros [= <-].
Qed.

(** A source layer that the remapper places and the original document
    knows is exported with the original's name and untouched properties,
    the box [finalX, finalY, finalX + w * scale, finalY + h * scale] of its
    placement, [hidden] opposite to its visibility, its opacity times
    255, and, if it is a group with children, the reconstruction of its
    transformed children. *)
Theorem exported_layer_of_source_layer
    (findLayerByPath : Psd → string → option Layer) (sourcePsd : Psd)
    (sourceRect targetRect : Rect) (scale anchorX anchorY : number)
    (strategy : option LayoutStrategy) (l : SerializableLayer) (dx dy : number)
    (originalLayer : Layer) :
  findLayerByPath sourcePsd (layer_id l) = Some originalLayer →
  let p := place sourceRect targetRect scale anchorX anchorY strategy l dx dy in
  ∃ newLayer,
    reconstructLayer findLayerByPath sourcePsd
      (transformLayer sourceRect targetRect scale anchorX anchorY strategy
         l dx dy) = Some newLayer
    ∧ psd_name newLayer = psd_name originalLayer
    ∧ preserved newLayer = preserved originalLayer
    ∧ left newLayer = Some (finalX p)
    ∧ top newLayer = Some (finalY p)
    ∧ right newLayer = Some (finalX p + rect_w (coords l) * layerScaleX p)
    ∧ bottom newLayer = Some (finalY p + rect_h (coords l) * layerScaleY p)
    ∧ hidden newLayer = Some (negb (isVisible l))
    ∧ psd_opacity newLayer = Some (opacity l * num 255)
    ∧ psd_children newLayer
      = match layer_type l, layer_children l with
        | group, Some cs =>
            Some (reconstructHierarchy findLayerByPath
                    (transformLayers sourceRect targetRect scale anchorX
                       anchorY strategy cs (currentDeltaX p) (currentDeltaY p))
                    sourcePsd)
        | _, _ => None
        end.
Proof.
  intros Hfind p. rewrite reconstructLayer_unfold.
  destruct (transformLayer_fields sourceRect targetRect scale anchorX anchorY
              strategy l dx dy) as (-> & _ & -> & -> & ->).
  rewrite Hfind, transformLayer_coords, transformLayer_children. cbv zeta.
  eexists. split; [reflexivity|]. cbn -[place].
  do 8 (split; [done|]).
  by destruct (layer_type l), (layer_children l).
Qed.

Lemma exported_layer_of_source_layer_witness :
  ∃ newLayer,
    reconstructLayer demo_finder demo_psd
      (transformLayer demo_source demo_target (frac 1 4) (num 35) (num 10)
         None dot (num 0) (num 0)) = Some newLayer
    ∧ psd_name newLayer = Some "Dot"
    ∧ hidden newLayer = Some false.
Proof.
  destruct (exported_layer_of_source_layer demo_finder demo_psd demo_source
              demo_target (frac 1 4) (num 35) (num 10) None dot (num 0) (num 0)
              original_dot eq_refl)
    as (newLayer & H & Hn & _ & _ & _ & _ & _ & Hh & _).
  exists newLayer. split; [exact H|]. split; [exact Hn|exact Hh].
Defined.

(** For a found element with finite box and an opacity between 0 and 1,
    the exported layer is as wide and as high as the transformed box and
    its opacity lies between 0 and 255. *)
Theorem reconstructed_box_and_opacity
    (findLayerByPath : Psd → string → option Layer) (sourcePsd : Psd)
    (m : TransformedLayer) (originalLayer : Layer) (x y w h o : Q) :
  findLayerByPath sourcePsd (tl_id m) = Some originalLayer →
  tl_coords m = rectQ x y w h → tl_opacity m = Fin o →
  (0 <= o)%Q → (o <= 1)%Q →
  ∃ (newLayer : Layer) (r b op : Q),
    reconstructLayer findLayerByPath sourcePsd m = Some newLayer
    ∧ left newLayer = Some (Fin x) ∧ top newLayer = Some (Fin y)
    ∧ right newLayer = Some (Fin r) ∧ bottom newLayer = Some (Fin b)
    ∧ (r - x == w)%Q ∧ (b - y == h)%Q
    ∧ psd_opacity newLayer = Some (Fin op)
    ∧ (0 <= op)%Q ∧ (op <= 255)%Q.
Proof.
  intros Hfind Hc Ho H0 H1. rewrite reconstructLayer_unfold, Hfind, Hc, Ho.
  cbv zeta. unfold rectQ. cbn [rect_x rect_y rect_w rect_h]. fin_arith.
  eexists _, _, _, _. split; [reflexivity|]. cbn.
  do 4 (split; [reflexivity|]).
  change (inject_Z 255) with 255%Q. repeat split; try ring; lra.
Qed.

Lemma reconstructed_box_and_opacity_witness :
  ∃ (newLayer : Layer) (r b op : Q),
    reconstructLayer demo_finder demo_psd (placed "0") = Some newLayer
    ∧ left newLayer = Some (Fin 10) ∧ top newLayer = Some (Fin 10)
    ∧ right newLayer = Some (Fin r) ∧ bottom newLayer = Some (Fin b)
    ∧ (r - 10 == 5)%Q ∧ (b - 10 == 5)%Q
    ∧ psd_opacity newLayer = Some (Fin op)
    ∧ (0 <= op)%Q ∧ (op <= 255)%Q.
Proof.
  apply (reconstructed_box_and_opacity demo_finder demo_psd (placed "0")
           original_dot 10 10 5 5 1); (reflexivity || discriminate).
Defined.

(** ** The template edge and the scale of a payload *)

(** Only the first edge into [template-input] counts: the template is
    the one registered for its source node, and when none is registered
    there the node has no template, whatever later edges offer. *)
Theorem first_template_edge_decides (pre post : list Edge) (e : Edge)
    (id : string) (templateRegistry : gmap string TemplateMetadata) :
  Forall (λ x, ¬ (edge_target x = id
                  ∧ edge_targetHandle x = Some "template-input")) pre →
  edge_target e = id → edge_targetHandle e = Some "template-input" →
  templateMetadata (pre ++ e :: post) id templateRegistry
  = templateRegistry !! edge_source e.
Proof.
  intros Hpre Ht Hh. unfold templateMetadata.
  induction Hpre as [|x pre Hx _ IH]; simpl.
  - by rewrite (bool_decide_eq_true_2 _ Ht), (bool_decide_eq_true_2 _ Hh).
  - destruct (bool_decide (edge_target x = id)) eqn:E1;
      destruct (bool_decide (edge_targetHandle x = Some "template-input"))
        eqn:E2; simpl; try exact IH.
    apply bool_decide_eq_true in E1, E2. by destruct Hx.
Qed.

Lemma first_template_edge_decides_witness :
  templateMetadata
    ([mkEdge "remap-1" (Some "result-out-0") "export-1" (Some "input-BG")]
     ++ mkEdge "template-9" None "export-1" (Some "template-input")
        :: [mkEdge "template-1" None "export-1" (Some "template-input")])
    "export-1" demo_templates
  = None.
Proof.
  rewrite first_template_edge_decides.
  - reflexivity.
  - constructor; [|constructor]. intros [_ H]. discriminate.
  - reflexivity.
  - reflexivity.
Defined.

(** The payload of an instance carries the strategy's [suggestedScale]
    when its source comes with a strategy, and then [strategyUsed] is
    set; otherwise it carries the smaller of the two target/source
    ratios and [strategyUsed] is not set.  Without a payload
    [strategyUsed] is never set. *)
Theorem payload_scale_and_strategy_flag (edges : list Edge) (nds : list Node)
    (id : string) (resolvedRegistry : gmap string (gmap string MappingContext))
    (templateRegistry : gmap string TemplateMetadata) (i : nat) :
  let inst :=
    computeInstance edges nds id resolvedRegistry templateRegistry i in
  (instance_payload inst = None → strategyUsed inst = false)
  ∧ ∀ p, instance_payload inst = Some p →
      ∃ src tgt,
        instance_source inst = Some src ∧ instance_target inst = Some tgt
        ∧ targetContainer p = target_name tgt
        ∧ match aiStrategy (resolved_source src) with
          | Some s => strategyUsed inst = true ∧ scaleFactor p = suggestedScale s
          | None =>
              strategyUsed inst = false
              ∧ scaleFactor p
                = min (rect_w (target_bounds tgt)
                       / rect_w (originalBounds (resolved_source src)))
                      (rect_h (target_bounds tgt)
                       / rect_h (originalBounds (resolved_source src)))
          end.
Proof.
  cbv zeta. unfold computeInstance.
  cbn [instance_payload instance_source instance_target strategyUsed].
  destruct (resolveSource _ _ _ _ _) as [src|];
    destruct (resolveTarget _ _ _ _) as [tgt|]; simpl; try done.
  split; [done|]. intros p [= <-]. exists src, tgt.
  do 3 (split; [done|]). simpl.
  by destruct (aiStrategy (resolved_source src)) as [s|].
Qed.

(** ** Edges that do not concern an instance or the export node *)

Lemma find_skip {A} (f : A → bool) (pre post : list A) (x : A) :
  f x = false → List.find f (pre ++ x :: post) = List.find f (pre ++ post).
Proof.
  intros Hx. induction pre as [|y pre IH]; simpl.
  - by rewrite Hx.
  - by destruct (f y).
Qed.

Lemma instance_handles_differ (i j : nat) :
  i ≠ j →
  "source-in-" +:+ pretty j ≠ "source-in-" +:+ pretty i
  ∧ "target-in-" +:+ pretty j ≠ "target-in-" +:+ pretty i
  ∧ "source-in-" +:+ pretty j ≠ "target-in-" +:+ pretty i
  ∧ "target-in-" +:+ pretty j ≠ "source-in-" +:+ pretty i.
Proof.
  intros Hij. repeat split; try discriminate.
  - intros H. apply (inj (String.app "source-in-")) in H.
    by apply (inj pretty) in H.
  - intros H. apply (inj (String.app "target-in-")) in H.
    by apply (inj pretty) in H.
Qed.

(** The instances are wired independently: an edge into the source or
    target handle of instance [j], or into another node, placed anywhere
    among the edges, leaves every other instance [i] as it was. *)
Theorem foreign_edges_leave_an_instance_alone (pre post : list Edge)
    (e : Edge) (nds : list Node) (id : string)
    (resolvedRegistry : gmap string (gmap string MappingContext))
    (templateRegistry : gmap string TemplateMetadata) (i j : nat) :
  edge_target e ≠ id
  ∨ i ≠ j ∧ (edge_targetHandle e = Some ("source-in-" +:+ pretty j)
             ∨ edge_targetHandle e = Some ("target-in-" +:+ pretty j)) →
  computeInstance (pre ++ e :: post) nds id resolvedRegistry templateRegistry i
  = computeInstance (pre ++ post) nds id resolvedRegistry templateRegistry i.
Proof.
  intros He.
  assert (∀ h, h = "source-in-" +:+ pretty i ∨ h = "target-in-" +:+ pretty i →
               find_edge (pre ++ e :: post) id h = find_edge (pre ++ post) id h)
    as Hfind.
  { intros h Hh. unfold find_edge. apply find_skip.
    apply andb_false_iff.
    destruct He as [Ht|[Hij Hj]]; [left; by apply bool_decide_eq_false|].
    right. apply bool_decide_eq_false.
    destruct (instance_handles_differ i j Hij) as (H1 & H2 & H3 & H4).
    destruct Hh as [->| ->], Hj as [->| ->]; congruence. }
  unfold computeInstance, resolveSource, resolveTarget.
  by rewrite !Hfind by eauto.
Qed.

Lemma foreign_edges_leave_an_instance_alone_witness :
  computeInstance
    ([] ++ mkEdge "resolver-9" (Some "source-out-3") "remap-1"
             (Some ("source-in-" +:+ pretty 1%nat)) :: remap_edges)
    remap_nodes "remap-1" remap_resolved demo_templates 0
  = computeInstance ([] ++ remap_edges) remap_nodes "remap-1" remap_resolved
      demo_templates 0.
Proof.
  apply (foreign_edges_leave_an_instance_alone [] remap_edges _ remap_nodes
           "remap-1" remap_resolved demo_templates 0 1).
  right. split; [lia|]. left. reflexivity.
Defined.

(** The validation looks only at edges that end in an [input-] handle
    of this node and carry a payload: any other edge, wherever it stands,
    changes neither the filled slots nor the violations. *)
Theorem validation_ignores_other_edges (pre post : list Edge) (e : Edge)
    (id : string)
    (payloadRegistry : gmap string (gmap string TransformedPayload)) :
  edge_target e ≠ id
  ∨ edge_targetHandle e = None
  ∨ (∃ h, edge_targetHandle e = Some h ∧ startsWith "input-" h = false)
  ∨ edge_payload payloadRegistry e = None →
  validate (pre ++ e :: post) id payloadRegistry
  = validate (pre ++ post) id payloadRegistry.
Proof.
  intros He. rewrite !validate_wirings. f_equal. unfold wirings.
  rewrite !omap_app. f_equal. simpl.
  assert (wiring id payloadRegistry e = None) as ->; [|done].
  unfold wiring, edge_slot.
  destruct He as [Ht|[Hh|[(h & Hh & Hs)|Hp]]].
  - by rewrite bool_decide_eq_false_2.
  - rewrite Hh. by case_bool_decide.
  - rewrite Hh, Hs. by case_bool_decide.
  - rewrite Hp. by destruct (if bool_decide _ then _ else _).
Qed.

Lemma validation_ignores_other_edges_witness :
  validate
    ([] ++ mkEdge "template-1" (Some "template-out") "export-1"
             (Some "template-input") :: dup_edges)
    "export-1" dup_payloads
  = validate ([] ++ dup_edges) "export-1" dup_payloads.
Proof.
  apply validation_ignores_other_edges.
  right. right. left. eexists. split; reflexivity.
Defined.
